(** * Screen Dimmer: the debounce / cancel / timeout control loop

    A shallow embedding of [main.go] (the [uiState] controller with
    [scheduleApply], [apply] and [reset]) and of the [LabeledSlider]
    widget it drives, together with the part of the Go runtime and of the
    toolkit that the program relies on: [strings.TrimSpace],
    [fmt.Sprintf] for the verbs [%d] and [%.Nf], the conversion
    [int(float64)], one-shot timers, deadline contexts, child processes
    and the queue of functions handed to the UI thread by [fyne.Do]. *)

From Stdlib Require Import ZArith String Ascii List Floats Lia.
From Stdlib Require Import DecimalString DecimalFacts DecimalPos DecimalN.
From stdpp Require Import base list strings.

Open Scope Z_scope.
Set Warnings "-inexact-float".

(** ** Go strings and [strings.TrimSpace]

    A Go string is a byte sequence; [string] of [ascii] is one too.  The
    trimming works on the byte codes. *)

Module GoStrings.

Definition bytes (s : string) : list N :=
  map N_of_ascii (list_ascii_of_string s).

Definition of_bytes (l : list N) : string :=
  string_of_list_ascii (map ascii_of_N l).

Definition byte_in (lo hi c : N) : bool := ((lo <=? c) && (c <=? hi))%N.

(** [unicode.IsSpace] on the Latin-1 range below 0x80:
    '\t', '\n', '\v', '\f', '\r' and ' '. *)
Definition ascii_space (c : N) : bool := byte_in 9 13 c || (c =? 32)%N.

(** Third byte of the runes U+2000..U+200A, U+2028, U+2029, U+202F, all of
    which are encoded E2 80 xx. *)
Definition e2_80_space (d : N) : bool :=
  byte_in 128 138 d || (d =? 168)%N || (d =? 169)%N || (d =? 175)%N.

(** Width in bytes of the white-space rune that starts the byte sequence,
    0 when the first rune is not white space.  The multi-byte runes of
    [unicode.IsSpace] are U+0085 and U+00A0 (0xC2 0x85, 0xC2 0xA0), U+1680
    (E1 9A 80), the E2 80 xx runes above, U+205F (E2 81 9F) and
    U+3000 (E3 80 80). *)
Definition space_width (l : list N) : nat :=
  match l with
  | [] => 0%nat
  | c :: r =>
      if ascii_space c then 1%nat
      else match r with
           | [] => 0%nat
           | d :: r' =>
               if (c =? 194)%N && ((d =? 133)%N || (d =? 160)%N) then 2%nat
               else match r' with
                    | [] => 0%nat
                    | e :: _ =>
                        if (c =? 225)%N && (d =? 154)%N && (e =? 128)%N then 3%nat
                        else if (c =? 226)%N && (d =? 128)%N && e2_80_space e then 3%nat
                        else if (c =? 226)%N && (d =? 129)%N && (e =? 159)%N then 3%nat
                        else if (c =? 227)%N && (d =? 128)%N && (e =? 128)%N then 3%nat
                        else 0%nat
                    end
           end
  end.

(** The same for the rune that ends the sequence, read on the reversed
    bytes: [utf8.DecodeLastRuneInString] steps back to the nearest start
    byte and accepts the rune only when it reaches the end exactly. *)
Definition space_width_last (rl : list N) : nat :=
  match rl with
  | [] => 0%nat
  | e :: r =>
      if ascii_space e then 1%nat
      else match r with
           | [] => 0%nat
           | d :: r' =>
               if (d =? 194)%N && ((e =? 133)%N || (e =? 160)%N) then 2%nat
               else match r' with
                    | [] => 0%nat
                    | c :: _ =>
                        if Nat.eqb (space_width [c; d; e]) 3 then 3%nat else 0%nat
                    end
           end
  end.

Fixpoint trim_with (width : list N -> nat) (fuel : nat) (l : list N) : list N :=
  match fuel with
  | O => l
  | S fuel' =>
      match width l with
      | O => l
      | S w => trim_with width fuel' (drop (S w) l)
      end
  end.

Definition trimLeft (l : list N) : list N :=
  trim_with space_width (length l) l.

Definition trimRight (l : list N) : list N :=
  rev (trim_with space_width_last (length l) (rev l)).

(** [strings.TrimSpace]: all leading and trailing white space removed. *)
Definition TrimSpace (s : string) : string :=
  of_bytes (trimRight (trimLeft (bytes s))).

(** The encodings of the 25 white-space runes. *)
Definition space_runes : list (list N) :=
  [ [9]; [10]; [11]; [12]; [13]; [32]; [194; 133]; [194; 160];
    [225; 154; 128];
    [226; 128; 128]; [226; 128; 129]; [226; 128; 130]; [226; 128; 131];
    [226; 128; 132]; [226; 128; 133]; [226; 128; 134]; [226; 128; 135];
    [226; 128; 136]; [226; 128; 137]; [226; 128; 138];
    [226; 128; 168]; [226; 128; 169]; [226; 128; 175];
    [226; 129; 159]; [227; 128; 128] ]%N.

(** A string made of white-space runes only (the empty string included). *)
Definition only_space (s : string) : Prop :=
  exists rs : list (list N), Forall (fun r => In r space_runes) rs /\ bytes s = concat rs.

End GoStrings.

(** ** [fmt.Sprintf] and numeric conversion *)

Module GoFmt.

Definition digits (n : Z) : string := NilZero.string_of_uint (N.to_uint (Z.to_N n)).

(** [fmt.Sprintf("%d", t)] for a Go [int]. *)
Definition Sprintf_d (t : Z) : string :=
  if t <? 0 then "-" +:+ digits (- t) else digits t.

Fixpoint zeros (n : nat) : string :=
  match n with O => "" | S n' => "0" +:+ zeros n' end.

Definition pad_left (width : nat) (s : string) : string :=
  zeros (width - String.length s) +:+ s.

(** The magnitude [m * 2^e] scaled by [10^prec] and rounded to the nearest
    integer, ties to even: the correctly rounded decimal that
    [strconv.FormatFloat(f, 'f', prec, 64)] prints. *)
Definition round_scaled (prec : nat) (m : positive) (e : Z) : Z :=
  let scaled := Z.pos m * 10 ^ Z.of_nat prec in
  if 0 <=? e then scaled * 2 ^ e
  else
    let d := 2 ^ (- e) in
    let q := scaled / d in
    let r := scaled mod d in
    if 2 * r <? d then q
    else if d <? 2 * r then q + 1
    else if Z.even q then q else q + 1.

Definition fixed (prec : nat) (neg : bool) (n : Z) : string :=
  let p := 10 ^ Z.of_nat prec in
  (if neg then "-" else "") +:+ digits (n / p) +:+
  match prec with
  | O => ""
  | _ => "." +:+ pad_left prec (digits (n mod p))
  end.

(** [fmt.Sprintf("%.<prec>f", f)] for a [float64]. *)
Definition Sprintf_f (prec : nat) (f : float) : string :=
  match Prim2SF f with
  | S754_nan => "NaN"
  | S754_infinity false => "+Inf"
  | S754_infinity true => "-Inf"
  | S754_zero neg => fixed prec neg 0
  | S754_finite neg m e => fixed prec neg (round_scaled prec m e)
  end.

Definition min_int64 : Z := - 2 ^ 63.
Definition max_int64 : Z := 2 ^ 63 - 1.

(** The conversion [int(f)]: the fraction is discarded (truncation towards
    zero).  For NaN, the infinities and values outside [int] the Go
    specification leaves the result to the implementation; amd64 returns
    the most negative integer. *)
Definition int_of_float64 (f : float) : Z :=
  match Prim2SF f with
  | S754_zero _ => 0
  | S754_finite neg m e =>
      let a := if 0 <=? e then Z.shiftl (Z.pos m) e else Z.shiftr (Z.pos m) (- e) in
      let v := if neg then - a else a in
      if (min_int64 <=? v) && (v <=? max_int64) then v else min_int64
  | _ => min_int64
  end.

End GoFmt.

Export GoStrings GoFmt.

(** ** [time]: durations in nanoseconds, as [time.Duration] *)

Definition Millisecond : Z := 1000000.
Definition Second : Z := 1000 * Millisecond.

Definition debounce : Z := 250 * Millisecond.
Definition timeout : Z := 3 * Second.

(** ** The widget: [LabeledSlider]

    [format] is the precision N of the widget's [%.Nf] format string
    ("%.0f" for the temperature, "%.2f" for the two others).  The
    [onChange] field is not a field here: [main] registers the same
    handler on the three sliders before the window is shown, and the
    operations below call it directly. *)

Record LabeledSlider : Type := mkLabeledSlider {
  Label : string;
  Min : float;
  Max : float;
  Step : float;
  Value : float;           (* Slider.Value *)
  valueLabel : string;
  minLabel : string;
  maxLabel : string;
  format : nat;
  unit : string
}.

Definition formatValue (ls : LabeledSlider) (v : float) : string :=
  let text := Sprintf_f (format ls) v in
  if String.eqb (unit ls) "" then text else text +:+ " " +:+ unit ls.

Definition with_Value (v : float) (ls : LabeledSlider) : LabeledSlider :=
  mkLabeledSlider (Label ls) (Min ls) (Max ls) (Step ls) v
    (valueLabel ls) (minLabel ls) (maxLabel ls) (format ls) (unit ls).

Definition updateValueLabel (v : float) (ls : LabeledSlider) : LabeledSlider :=
  mkLabeledSlider (Label ls) (Min ls) (Max ls) (Step ls) (Value ls)
    (formatValue ls v) (minLabel ls) (maxLabel ls) (format ls) (unit ls).

Definition NewLabeledSlider (title : string) (min max step initial : float)
    (fmt : nat) (un : string) : LabeledSlider :=
  (* widget.NewSlider leaves Step at 1; [if step > 0 { s.Step = step }] *)
  let st := if PrimFloat.ltb 0 step then step else 1%float in
  let ls := mkLabeledSlider title min max st initial "" "" "" fmt un in
  let ls := mkLabeledSlider title min max st initial
              "" (formatValue ls min) (formatValue ls max) fmt un in
  updateValueLabel initial ls.

(** ** The controller state

    [timer] and [cancel] are references: the index of a runtime timer and
    the index of the command whose context the stored [CancelFunc]
    cancels. *)

Record uiState : Type := mkUiState {
  tempK : LabeledSlider;
  brightness : LabeledSlider;
  gamma : LabeledSlider;
  out : string;            (* text of the status label *)
  timer : option nat;
  cancel : option nat;
  silence : bool
}.

(** [ctx.Err()]: nil, [context.Canceled] or [context.DeadlineExceeded].
    The first of cancellation and expiry wins and the value never changes
    afterwards. *)
Inductive CtxErr : Type := NoErr | Canceled | DeadlineExceeded.

(** A timer made by [time.AfterFunc]; [targs] is the snapshot captured by
    its closure. *)
Record Timer : Type := mkTimer {
  when : Z;
  targs : Z * float * float;
  pending : bool
}.

Inductive Caller : Type := ByApply | ByReset.

(** One [exec.CommandContext] call together with its context. *)
Record Proc : Type := mkProc {
  argv : list string;
  caller : Caller;
  deadline : Z;
  ctxErr : CtxErr;
  waiting : bool           (* CombinedOutput has not returned yet *)
}.

(** A function queued by [fyne.Do] for the UI thread. *)
Inductive MainCall : Type :=
| SetText (msg : string)          (* the closure at the end of [apply] *)
| ResetDone (msg : string).       (* the closure at the end of [reset] *)

(** A goroutine that a [go] statement has spawned and the scheduler has
    not run yet: [go u.apply(t, b, g)] or [go u.reset()]. *)
Inductive Goroutine : Type :=
| ApplyCall (a : Z * float * float)
| ResetCall.

Record Sys : Type := mkSys {
  u : uiState;
  now : Z;
  timers : list Timer;
  procs : list Proc;
  mainq : list MainCall;
  ready : list Goroutine
}.

Inductive Param : Type := PTemp | PBright | PGamma.

Definition slider (w : Param) (s : uiState) : LabeledSlider :=
  match w with PTemp => tempK s | PBright => brightness s | PGamma => gamma s end.

Definition with_slider (w : Param) (ls : LabeledSlider) (s : uiState) : uiState :=
  match w with
  | PTemp => mkUiState ls (brightness s) (gamma s) (out s) (timer s) (cancel s) (silence s)
  | PBright => mkUiState (tempK s) ls (gamma s) (out s) (timer s) (cancel s) (silence s)
  | PGamma => mkUiState (tempK s) (brightness s) ls (out s) (timer s) (cancel s) (silence s)
  end.

Definition with_out (msg : string) (s : uiState) : uiState :=
  mkUiState (tempK s) (brightness s) (gamma s) msg (timer s) (cancel s) (silence s).

Definition with_timer (t : option nat) (s : uiState) : uiState :=
  mkUiState (tempK s) (brightness s) (gamma s) (out s) t (cancel s) (silence s).

Definition with_cancel (c : option nat) (s : uiState) : uiState :=
  mkUiState (tempK s) (brightness s) (gamma s) (out s) (timer s) c (silence s).

Definition with_silence (b : bool) (s : uiState) : uiState :=
  mkUiState (tempK s) (brightness s) (gamma s) (out s) (timer s) (cancel s) b.

Definition with_u (f : uiState -> uiState) (s : Sys) : Sys :=
  mkSys (f (u s)) (now s) (timers s) (procs s) (mainq s) (ready s).

Definition with_now (t : Z) (s : Sys) : Sys :=
  mkSys (u s) t (timers s) (procs s) (mainq s) (ready s).

Definition with_timers (f : list Timer -> list Timer) (s : Sys) : Sys :=
  mkSys (u s) (now s) (f (timers s)) (procs s) (mainq s) (ready s).

Definition with_procs (f : list Proc -> list Proc) (s : Sys) : Sys :=
  mkSys (u s) (now s) (timers s) (f (procs s)) (mainq s) (ready s).

Definition with_mainq (f : list MainCall -> list MainCall) (s : Sys) : Sys :=
  mkSys (u s) (now s) (timers s) (procs s) (f (mainq s)) (ready s).

Definition with_ready (f : list Goroutine -> list Goroutine) (s : Sys) : Sys :=
  mkSys (u s) (now s) (timers s) (procs s) (mainq s) (f (ready s)).

(** ** Runtime primitives: contexts and timers *)

Definition with_ctxErr (e : CtxErr) (p : Proc) : Proc :=
  mkProc (argv p) (caller p) (deadline p) e (waiting p).

Definition returned (p : Proc) : Proc :=
  mkProc (argv p) (caller p) (deadline p) (ctxErr p) false.

(** Calling the [CancelFunc] of a context: the first call on a live
    context cancels it (and kills its command), later calls do nothing. *)
Definition cancel_ctx (p : Proc) : Proc :=
  match ctxErr p with
  | NoErr => with_ctxErr Canceled p
  | _ => p
  end.

Definition call_cancel (c : nat) (s : Sys) : Sys :=
  with_procs (alter cancel_ctx c) s.

(** The deadline of a live context passes. *)
Definition expire (t : Z) (p : Proc) : Proc :=
  match ctxErr p with
  | NoErr => if deadline p <=? t then with_ctxErr DeadlineExceeded p else p
  | _ => p
  end.

Definition stopped (tm : Timer) : Timer := mkTimer (when tm) (targs tm) false.

(** [Timer.Stop]: a timer that has fired or was stopped is left as it is. *)
Definition Timer_Stop (i : nat) (s : Sys) : Sys :=
  with_timers (alter stopped i) s.

(** [time.AfterFunc(d, f)] where [f] is the closure over the snapshot
    [a]; the new timer is stored in [u.timer]. *)
Definition AfterFunc (d : Z) (a : Z * float * float) (s : Sys) : Sys :=
  let i := length (timers s) in
  with_u (with_timer (Some i))
    (with_timers (fun l => l ++ [mkTimer (now s + d) a true]) s).

(** [context.WithTimeout], [u.cancel = cancel], [exec.CommandContext] and
    the start of [CombinedOutput], at time [t0]. *)
Definition start_command (who : Caller) (args : list string) (t0 : Z) (s : Sys) : Sys :=
  let pid := length (procs s) in
  with_procs (fun l => l ++ [mkProc ("redshift" :: args) who (t0 + timeout) NoErr true])
    (with_u (with_cancel (Some pid)) s).

(** ** [main.go] *)

Definition scheduleApply (t : Z) (b g : float) (s : Sys) : Sys :=
  let s := match cancel (u s) with
           | Some c => with_u (with_cancel None) (call_cancel c s)
           | None => s
           end in
  let s := match timer (u s) with
           | Some i => Timer_Stop i s
           | None => s
           end in
  AfterFunc debounce (t, b, g) s.

(** The handler that [main] registers on the three sliders. *)
Definition onChange (s : Sys) : Sys :=
  if silence (u s) then s
  else
    let t := int_of_float64 (Value (tempK (u s))) in
    let b := Value (brightness (u s)) in
    let g := Value (gamma (u s)) in
    scheduleApply t b g s.

Definition apply_args (t : Z) (b g : float) : list string :=
  [ "-m"; "randr";
    "-P";
    "-O"; Sprintf_d t;
    "-g"; Sprintf_f 2 g +:+ ":" +:+ Sprintf_f 2 g +:+ ":" +:+ Sprintf_f 2 g;
    "-b"; Sprintf_f 2 b ].

(** First half of [apply], up to the call of [CombinedOutput]. *)
Definition apply_begin (a : Z * float * float) (t0 : Z) (s : Sys) : Sys :=
  let '(t, b, g) := a in
  start_command ByApply (apply_args t b g) t0 s.

Definition is_deadline (e : CtxErr) : bool :=
  match e with DeadlineExceeded => true | _ => false end.

(** The message computed by [apply] once [CombinedOutput] has returned
    [outBytes] and [err] ([None] for nil, [Some] of [err.Error()]
    otherwise). *)
Definition apply_msg (e : CtxErr) (err : option string) (outBytes : string) : string :=
  let msg := TrimSpace outBytes in
  if is_deadline e then "Timed out applying settings."
  else match err with
       | Some d =>
           if String.eqb msg "" then "redshift error: " +:+ d
           else "redshift error: " +:+ msg
       | None =>
           if String.eqb msg "" then "Applied." else msg
       end.

(** First half of [reset]. *)
Definition reset_begin (s : Sys) : Sys :=
  start_command ByReset ["-x"] (now s) s.

Definition reset_msg (err : option string) (outBytes : string) : string :=
  let msg := TrimSpace outBytes in
  match err with
  | Some d =>
      if String.eqb msg "" then "reset error: " +:+ d
      else "reset error: " +:+ msg
  | None => "Reset to defaults."
  end.

(** [CombinedOutput] of command [pid] returns: the second half of [apply]
    or [reset].  The message is queued with [fyne.Do], then the deferred
    [cancel()] runs. *)
Definition finish (pid : nat) (outBytes : string) (err : option string) (s : Sys) : Sys :=
  match procs s !! pid with
  | Some p =>
      if waiting p then
        let call := match caller p with
                    | ByApply => SetText (apply_msg (ctxErr p) err outBytes)
                    | ByReset => ResetDone (reset_msg err outBytes)
                    end in
        with_procs (alter (fun p => cancel_ctx (returned p)) pid)
          (with_mainq (fun q => q ++ [call]) s)
      else s
  | None => s
  end.

(** ** The widget's callbacks and setters *)

(** The [OnChanged] closure installed by [NewLabeledSlider]. *)
Definition OnChanged (w : Param) (v : float) (s : Sys) : Sys :=
  onChange (with_u (fun us => with_slider w (updateValueLabel v (slider w us)) us) s).

Definition clamp (ls : LabeledSlider) (v : float) : float :=
  if PrimFloat.leb (Max ls) v then Max ls
  else if PrimFloat.leb v (Min ls) then Min ls
  else v.

(** The toolkit's [Slider.SetValue]: nothing happens when the value is
    the current one; otherwise the value is stored, clamped to the
    slider's range, and [OnChanged] is called unless the stored value is
    the one the slider had.  (The toolkit's rounding to a multiple of
    [Step], between the clamping and that comparison, is left out.) *)
Definition Slider_SetValue (w : Param) (v : float) (s : Sys) : Sys :=
  let ls := slider w (u s) in
  if PrimFloat.eqb (Value ls) v then s
  else
    let v' := clamp ls v in
    let s' := with_u (with_slider w (with_Value v' ls)) s in
    if PrimFloat.eqb (Value ls) v' then s' else OnChanged w v' s'.

Definition SetValue (w : Param) (v : float) (s : Sys) : Sys :=
  let s := Slider_SetValue w v s in
  with_u (fun us => with_slider w (updateValueLabel v (slider w us)) us) s.

(** The closure that [reset] hands to [fyne.Do]. *)
Definition reset_done (msg : string) (s : Sys) : Sys :=
  let s := with_u (with_silence true) s in
  let s := SetValue PTemp 6500 s in
  let s := SetValue PBright 1 s in
  let s := SetValue PGamma 1 s in
  let s := with_u (with_silence false) s in
  with_u (with_out msg) s.

Definition run_main (c : MainCall) (s : Sys) : Sys :=
  match c with
  | SetText msg => with_u (with_out msg) s
  | ResetDone msg => reset_done msg s
  end.

(** ** Events and the step function *)

(** [ResetTapped] and [Elapse] are the prompt cases: the goroutine that
    the button or a firing timer spawns runs at once, up to its call of
    [CombinedOutput].  [ResetTappedSlow] and [ElapseSlow] only spawn the
    goroutine; it runs when the scheduler gets to it, [GoRun], and other
    events may be handled in between. *)
Inductive Event : Type :=
| Dragged (w : Param) (v : float)    (* the user moves slider [w] to [v] *)
| ResetTapped                        (* the button: [go u.reset()] *)
| Elapse (d : Z)                     (* [d] nanoseconds pass *)
| Exited (pid : nat) (outBytes : string) (err : option string)
| MainLoop                           (* the UI thread runs one queued call *)
| ResetTappedSlow                    (* the button; the goroutine waits *)
| ElapseSlow (d : Z)                 (* [d] nanoseconds pass; goroutines wait *)
| GoRun (k : nat).                   (* the [k]-th waiting goroutine runs *)

(** The timer fires and the goroutine of its function, [go u.apply],
    runs at once. *)
Definition fire (i : nat) (tm : Timer) (s : Sys) : Sys :=
  apply_begin (targs tm) (Z.max (now s) (when tm)) (Timer_Stop i s).

(** The timer fires; its function spawns the goroutine, which waits. *)
Definition spawn (i : nat) (tm : Timer) (s : Sys) : Sys :=
  with_ready (fun r => r ++ [ApplyCall (targs tm)]) (Timer_Stop i s).

(** A waiting goroutine runs up to its call of [CombinedOutput]. *)
Definition go_begin (g : Goroutine) (s : Sys) : Sys :=
  match g with
  | ApplyCall a => apply_begin a (now s) s
  | ResetCall => reset_begin s
  end.

Definition due (t : Z) (it : nat * Timer) : bool :=
  pending (snd it) && (when (snd it) <=? t).

(** Timers are created with increasing [when], so list order is firing
    order. *)
Definition due_timers (t : Z) (s : Sys) : list (nat * Timer) :=
  List.filter (due t) (imap pair (timers s)).

Definition elapse (d : Z) (s : Sys) : Sys :=
  if d <? 0 then s
  else
    let t := now s + d in
    let s := foldl (fun acc it => fire (fst it) (snd it) acc) s (due_timers t s) in
    with_now t (with_procs (map (expire t)) s).

Definition elapse_slow (d : Z) (s : Sys) : Sys :=
  if d <? 0 then s
  else
    let t := now s + d in
    let s := foldl (fun acc it => spawn (fst it) (snd it) acc) s (due_timers t s) in
    with_now t (with_procs (map (expire t)) s).

Definition step (s : Sys) (ev : Event) : Sys :=
  match ev with
  | Dragged w v =>
      OnChanged w v (with_u (fun us => with_slider w (with_Value v (slider w us)) us) s)
  | ResetTapped => reset_begin s
  | Elapse d => elapse d s
  | Exited pid outBytes err => finish pid outBytes err s
  | MainLoop =>
      match mainq s with
      | [] => s
      | c :: q => run_main c (with_mainq (fun _ => q) s)
      end
  | ResetTappedSlow => with_ready (fun r => r ++ [ResetCall]) s
  | ElapseSlow d => elapse_slow d s
  | GoRun k =>
      match ready s !! k with
      | Some g => go_begin g (with_ready (delete k) s)
      | None => s
      end
  end.

Definition run (s : Sys) (evs : list Event) : Sys := foldl step s evs.

(** ** [main]: the state when the window is shown

    [lookPath] is the result of [exec.LookPath("redshift")]: the resolved
    path, or [None] when the call returns an error. *)

Definition not_found_msg : string :=
  "Error: 'redshift' not found in PATH. Install it (e.g., sudo apt install redshift).".

Definition main_init (lookPath : option string) : Sys :=
  let temp := NewLabeledSlider "Temperature (K)" 1000 10000 100 6500 0 "K" in
  let bright := NewLabeledSlider "Brightness" 0.10 1.00 0.01 1.00 2 "" in
  let gam := NewLabeledSlider "Gamma" 0.50 2.50 0.01 1.00 2 "" in
  let us := mkUiState temp bright gam "Ready." None None false in
  let us := match lookPath with
            | Some _ => us
            | None => with_out not_found_msg us
            end in
  mkSys us 0 [] [] [] [].

(** ** Vocabulary of the properties *)

Definition reachable (s : Sys) : Prop :=
  exists lookPath evs, s = run (main_init lookPath) evs.

(** The commands started so far, oldest first. *)
Definition invocations (s : Sys) : list (Caller * list string) :=
  map (fun p => (caller p, argv p)) (procs s).

(** A command is in flight while its [CombinedOutput] has not returned
    and its context is neither cancelled nor expired. *)
Definition in_flight (p : Proc) : bool :=
  waiting p && match ctxErr p with NoErr => true | _ => false end.

(** The snapshot that [onChange] takes of the three sliders. *)
Definition snapshot (us : uiState) : Z * float * float :=
  (int_of_float64 (Value (tempK us)), Value (brightness us), Value (gamma us)).

(** The slider ranges that [main] sets up; nothing changes them later. *)
Definition ranges_ok (us : uiState) : Prop :=
  Min (tempK us) = 1000%float /\ Max (tempK us) = 10000%float /\
  Min (brightness us) = 0.10%float /\ Max (brightness us) = 1%float /\
  Min (gamma us) = 0.50%float /\ Max (gamma us) = 2.50%float.

(** At most the timer that [u.timer] refers to is pending. *)
Definition one_pending (s : Sys) : Prop :=
  forall j tm, timers s !! j = Some tm -> pending tm = true -> timer (u s) = Some j.

(** What holds of the controller whenever the UI thread is idle. *)
Definition inv (s : Sys) : Prop :=
  silence (u s) = false /\ one_pending s.

(** A burst of slider changes: a first change, then further changes each
    [gap] nanoseconds after the one before, then [idle] nanoseconds of
    quiet. *)
Definition burst_changes (c0 : Param * float) (cs : list (Z * (Param * float))) : list Event :=
  Dragged (fst c0) (snd c0) ::
  flat_map (fun gc => [Elapse (fst gc); Dragged (fst (snd gc)) (snd (snd gc))]) cs.

Definition burst (c0 : Param * float) (cs : list (Z * (Param * float))) (idle : Z) : list Event :=
  burst_changes c0 cs ++ [Elapse idle].

(** A sample of white-space output: a blank, a tab and a no-break space
    (U+00A0, bytes 0xC2 0xA0). *)
Definition blank_tab_nbsp : string :=
  String " " (String (ascii_of_nat 9) (String (ascii_of_nat 194) (String (ascii_of_nat 160) ""))).

(** The slider after [SetValue v] when the handler is silenced. *)
Definition set_value_result (ls : LabeledSlider) (v : float) : LabeledSlider :=
  updateValueLabel v
    (if PrimFloat.eqb (Value ls) v then ls
     else updateValueLabel (clamp ls v) (with_Value (clamp ls v) ls)).

(** The user's move of slider [w] to [v], before the handler runs. *)
Definition moved (w : Param) (v : float) (us : uiState) : uiState :=
  with_slider w (updateValueLabel v (with_Value v (slider w us))) us.

(** The controller right after a slider change: the newest timer is the
    only pending one, it is the one in [u.timer], it fires [debounce]
    from now and carries the snapshot of the sliders as they are now;
    [base] are the commands started so far. *)
Definition armed (base : list (Caller * list string)) (s : Sys) : Prop :=
  silence (u s) = false /\ invocations s = base /\
  exists l, timers s = l ++ [mkTimer (now s + debounce) (snapshot (u s)) true]
            /\ Forall (fun tm => pending tm = false) l
            /\ timer (u s) = Some (length l).

(** In every in-flight command's case the slot holds its cancel function,
    and while a timer is pending no command is in flight. *)
Definition slot_owns_flight (s : Sys) : Prop :=
  (forall i p, procs s !! i = Some p -> in_flight p = true -> cancel (u s) = Some i)
  /\ (forall j tm, timers s !! j = Some tm -> pending tm = true ->
        forall i p, procs s !! i = Some p -> in_flight p = false).

(** The events at which a goroutine is spawned to wait, or a waiting
    one runs. *)
Definition is_slow (ev : Event) : bool :=
  match ev with ResetTappedSlow | ElapseSlow _ | GoRun _ => true | _ => false end.

(** The events of a run without the button in which every [apply]
    goroutine runs the moment its timer fires. *)
Definition is_prompt (ev : Event) : bool :=
  match ev with ResetTapped => false | _ => negb (is_slow ev) end.

(** The character of a decimal digit. *)
Definition digit_char (d : Z) : ascii := ascii_of_nat (48 + Z.to_nat d).

(** ** Vocabulary of the further properties *)

(** The value label of a slider shows the slider's value. *)
Definition label_shows_value (ls : LabeledSlider) : Prop :=
  valueLabel ls = formatValue ls (Value ls).

Definition labels_ok (us : uiState) : Prop :=
  label_shows_value (tempK us) /\ label_shows_value (brightness us)
  /\ label_shows_value (gamma us).

(** The formats and units that [main] passes to [NewLabeledSlider]. *)
Definition formats_ok (us : uiState) : Prop :=
  format (tempK us) = 0%nat /\ unit (tempK us) = "K"
  /\ format (brightness us) = 2%nat /\ unit (brightness us) = ""
  /\ format (gamma us) = 2%nat /\ unit (gamma us) = "".

(** The sliders show the default values. *)
Definition at_defaults (us : uiState) : Prop :=
  Value (tempK us) = 6500%float /\ Value (brightness us) = 1%float
  /\ Value (gamma us) = 1%float.

(** The newest timer is the only pending one and the one in [u.timer];
    it fires at [t0] with the snapshot [a]. *)
Definition pending_last (t0 : Z) (a : Z * float * float) (s : Sys) : Prop :=
  exists l, timers s = l ++ [mkTimer t0 a true]
            /\ Forall (fun tm => pending tm = false) l
            /\ timer (u s) = Some (length l).


Definition is_mainloop (ev : Event) : bool :=
  match ev with MainLoop => true | _ => false end.

Definition is_dragged (ev : Event) : bool :=
  match ev with Dragged _ _ => true | _ => false end.

(** The events that neither change a slider nor tap the button. *)
Definition is_quiet (ev : Event) : bool :=
  match ev with
  | Dragged _ _ | ResetTapped | ResetTappedSlow => false
  | _ => true
  end.

(** The time that an event takes, and a list of events. *)
Definition dur (ev : Event) : Z :=
  match ev with
  | Elapse d | ElapseSlow d => Z.max 0 d
  | _ => 0
  end.

Definition elapsed (evs : list Event) : Z := foldr (fun ev t => dur ev + t) 0 evs.

(** The controller after a [reset]: the sliders at the defaults, the
    flag clear and the status text [msg]. *)
Definition restored (msg : string) (us : uiState) : Prop :=
  Value (tempK us) = 6500%float /\ Value (brightness us) = 1%float
  /\ Value (gamma us) = 1%float /\ silence us = false /\ out us = msg.

(** ** Reading the arguments back

    What [redshift] finds on its command line: decimal numerals.  The
    readers accept one spelling per number. *)

Definition digit_value (c : ascii) : option Z :=
  let n := Z.of_nat (nat_of_ascii c) in
  if (48 <=? n) && (n <=? 57) then Some (n - 48) else None.

Fixpoint read_digits (acc : Z) (s : string) : option Z :=
  match s with
  | EmptyString => Some acc
  | String c r =>
      match digit_value c with
      | Some d => read_digits (10 * acc + d) r
      | None => None
      end
  end.

(** A natural number: one or more digits, the first of which is 0 only
    when it is the only one. *)
Definition read_nat (s : string) : option Z :=
  match s with
  | EmptyString => None
  | String c EmptyString => digit_value c
  | String c _ => if Ascii.eqb c "0" then None else read_digits 0 s
  end.

(** An integer: a natural number, or a minus sign and a natural number. *)
Definition read_int (s : string) : option Z :=
  match s with
  | EmptyString => None
  | String c r => if Ascii.eqb c "-" then option_map Z.opp (read_nat r) else read_nat s
  end.

(** Exactly two digits. *)
Definition read_two (s : string) : option Z :=
  match s with
  | String a (String b EmptyString) =>
      match digit_value a, digit_value b with
      | Some x, Some y => Some (10 * x + y)
      | _, _ => None
      end
  | _ => None
  end.

(** The text before the first point and the text after it. *)
Fixpoint split_at_point (s : string) : option (string * string) :=
  match s with
  | EmptyString => None
  | String c r =>
      if Ascii.eqb c "." then Some (EmptyString, r)
      else match split_at_point r with
           | Some (a, b) => Some (String c a, b)
           | None => None
           end
  end.

(** A decimal with exactly two places, as its sign and its number of
    hundredths: an optional minus sign, a natural number, a point and two
    digits. *)
Definition read_fixed2 (s : string) : option (bool * Z) :=
  let sb := match s with
            | EmptyString => (false, s)
            | String c r => if Ascii.eqb c "-" then (true, r) else (false, s)
            end in
  match split_at_point (snd sb) with
  | Some (ip, fp) =>
      match read_nat ip, read_two fp with
      | Some i, Some f => Some (fst sb, 100 * i + f)
      | _, _ => None
      end
  | None => None
  end.

(** [n / 10^prec] is the decimal with [prec] places that is nearest to
    the magnitude [m * 2^e], the even one of the two when the magnitude
    lies half-way. *)
Definition nearest (prec : nat) (m : positive) (e : Z) (n : Z) : Prop :=
  if 0 <=? e then n = Z.pos m * 2 ^ e * 10 ^ Z.of_nat prec
  else
    2 * Z.abs (n * 2 ^ (- e) - Z.pos m * 10 ^ Z.of_nat prec) <= 2 ^ (- e)
    /\ (2 * Z.abs (n * 2 ^ (- e) - Z.pos m * 10 ^ Z.of_nat prec) = 2 ^ (- e) ->
        Z.even n = true).

(** [str] shows the number [x] with two places: the sign of [x] and the
    nearest number of hundredths; the three values that are no numbers
    by their names. *)
Definition shows_fixed2 (x : float) (str : string) : Prop :=
  match Prim2SF x with
  | S754_nan => str = "NaN"
  | S754_infinity neg => str = if neg then "-Inf" else "+Inf"
  | S754_zero neg => read_fixed2 str = Some (neg, 0)
  | S754_finite neg m e => exists n, read_fixed2 str = Some (neg, n) /\ nearest 2 m e n
  end.

Fixpoint all_digits (s : string) : bool :=
  match s with
  | EmptyString => true
  | String c r => match digit_value c with Some _ => all_digits r | None => false end
  end.

(** A finite number without a fraction: the magnitude [m * 2^e] is an
    integer. *)
Definition whole (m : positive) (e : Z) : Prop :=
  0 <= e \/ (Z.pos m) mod 2 ^ (- e) = 0.

(** * Properties *)

Ltac destruct_sys s :=
  let us := fresh "us" in
  destruct s as [us ? ? ? ? ?]; destruct us as [? ? ? ? ? ? ?].


(** ** The Go runtime model on examples *)

Example TrimSpace_ex1 : TrimSpace "  Using method `randr'.  " = "Using method `randr'.".
Proof. reflexivity. Qed.

Example Sprintf_f_ex1 :
  (Sprintf_f 2 1, Sprintf_f 2 0.125, Sprintf_f 2 0.375, Sprintf_f 2 2.5, Sprintf_f 0 6500)
  = ("1.00", "0.12", "0.38", "2.50", "6500")%string.
Proof. reflexivity. Qed.

Example int_of_float64_ex1 :
  (int_of_float64 6500, int_of_float64 1234.75, int_of_float64 (-3.5)) = (6500, 1234, -3).
Proof. reflexivity. Qed.

(** ** White space *)

Lemma space_rune_width (r rest : list N) :
  In r space_runes ->
  exists w, space_width (r ++ rest) = S w /\ drop (S w) (r ++ rest) = rest.
Proof.
  intros H. simpl in H.
  repeat (destruct H as [<- | H]; [ eexists; split; reflexivity | ]).
  contradiction.
Qed.

Lemma trimLeft_spaces (rs : list (list N)) :
  Forall (fun r => In r space_runes) rs ->
  forall fuel, (length (concat rs) <= fuel)%nat ->
  trim_with space_width fuel (concat rs) = [].
Proof.
  induction 1 as [| r rs Hr _ IH]; intros fuel Hlen.
  - destruct fuel; reflexivity.
  - simpl concat in *.
    destruct (space_rune_width r (concat rs) Hr) as (w & Hw & Hd).
    assert (Hl : length (concat rs) = (length (r ++ concat rs) - S w)%nat).
    { rewrite <- Hd at 1. apply length_drop. }
    destruct fuel as [| fuel].
    { destruct (r ++ concat rs); [ discriminate Hw | simpl in Hlen; lia ]. }
    simpl. rewrite Hw, Hd. apply IH. lia.
Qed.

Lemma TrimSpace_only_space (s : string) : only_space s -> TrimSpace s = "".
Proof.
  intros (rs & Hrs & Hb). unfold TrimSpace, trimLeft. rewrite Hb.
  rewrite trimLeft_spaces by (assumption || lia). reflexivity.
Qed.

(** ** The status message of [apply] and [reset] *)

Lemma eqb_empty_true (s : string) : s = "" -> String.eqb s "" = true.
Proof. intros ->. reflexivity. Qed.

Lemma eqb_empty_false (s : string) : s <> "" -> String.eqb s "" = false.
Proof. intros H. apply String.eqb_neq. exact H. Qed.

(** C2, as stated, fails: the texts that [apply] publishes for a passed
    deadline and for a silent success end in a full stop, so they are not
    the texts "Timed out applying settings" and "Applied". *)
Lemma apply_msg_texts_end_in_full_stop :
  apply_msg DeadlineExceeded (Some "signal: killed") "" <> "Timed out applying settings"
  /\ apply_msg NoErr None "" <> "Applied".
Proof. split; intros H; vm_compute in H; discriminate H. Qed.

(** C2 (amended): for every completed [apply], with [text] the trimmed
    combined output, the status message is, in this order of priority:
    (a) "Timed out applying settings." when the deadline has passed;
    (b) "redshift error: " and the error's description when the command
    failed and [text] is empty; (c) "redshift error: " and [text] when it
    failed with output; (d) "Applied." when it succeeded and [text] is
    empty; (e) [text] itself otherwise. *)
Theorem apply_msg_classification (e : CtxErr) (err : option string) (outBytes : string) :
  (e = DeadlineExceeded ->
     apply_msg e err outBytes = "Timed out applying settings.")
  /\ (forall d, e <> DeadlineExceeded -> err = Some d -> TrimSpace outBytes = "" ->
        apply_msg e err outBytes = "redshift error: " +:+ d)
  /\ (forall d, e <> DeadlineExceeded -> err = Some d -> TrimSpace outBytes <> "" ->
        apply_msg e err outBytes = "redshift error: " +:+ TrimSpace outBytes)
  /\ (e <> DeadlineExceeded -> err = None -> TrimSpace outBytes = "" ->
        apply_msg e err outBytes = "Applied.")
  /\ (e <> DeadlineExceeded -> err = None -> TrimSpace outBytes <> "" ->
        apply_msg e err outBytes = TrimSpace outBytes).
Proof.
  assert (Hlive : e <> DeadlineExceeded -> is_deadline e = false).
  { destruct e; intros H; try reflexivity. contradiction. }
  unfold apply_msg. repeat split.
  - intros ->. reflexivity.
  - intros d He -> Ht. rewrite (Hlive He), (eqb_empty_true _ Ht). reflexivity.
  - intros d He -> Ht. rewrite (Hlive He), (eqb_empty_false _ Ht). reflexivity.
  - intros He -> Ht. rewrite (Hlive He), (eqb_empty_true _ Ht). reflexivity.
  - intros He -> Ht. rewrite (Hlive He), (eqb_empty_false _ Ht). reflexivity.
Qed.

Lemma apply_msg_classification_witness :
  apply_msg DeadlineExceeded None "ok" = "Timed out applying settings."
  /\ apply_msg Canceled (Some "signal: killed") " " = "redshift error: signal: killed"
  /\ apply_msg NoErr (Some "exit status 1") "bad option " = "redshift error: bad option"
  /\ apply_msg NoErr None "" = "Applied."
  /\ apply_msg NoErr None " Using method `randr'." = "Using method `randr'.".
Proof.
  destruct (apply_msg_classification DeadlineExceeded None "ok") as (Ha & _).
  destruct (apply_msg_classification Canceled (Some "signal: killed") " ") as (_ & Hb & _).
  destruct (apply_msg_classification NoErr (Some "exit status 1") "bad option ")
    as (_ & _ & Hc & _).
  destruct (apply_msg_classification NoErr None "") as (_ & _ & _ & Hd & _).
  destruct (apply_msg_classification NoErr None " Using method `randr'.")
    as (_ & _ & _ & _ & He).
  split; [ apply Ha; reflexivity | ].
  split; [ apply Hb; [ discriminate | reflexivity | reflexivity ] | ].
  split; [ apply (Hc "exit status 1"); [ discriminate | reflexivity | vm_compute; discriminate ] | ].
  split; [ apply Hd; [ discriminate | reflexivity | reflexivity ] | ].
  apply He; [ discriminate | reflexivity | vm_compute; discriminate ].
Defined.

(** The message of [reset] does not look at the context at all. *)
Lemma reset_msg_cases (err : option string) (outBytes : string) :
  (err = None -> reset_msg err outBytes = "Reset to defaults.")
  /\ (forall d, err = Some d -> TrimSpace outBytes = "" ->
        reset_msg err outBytes = "reset error: " +:+ d)
  /\ (forall d, err = Some d -> TrimSpace outBytes <> "" ->
        reset_msg err outBytes = "reset error: " +:+ TrimSpace outBytes).
Proof.
  unfold reset_msg. repeat split.
  - intros ->. reflexivity.
  - intros d -> Ht. rewrite (eqb_empty_true _ Ht). reflexivity.
  - intros d -> Ht. rewrite (eqb_empty_false _ Ht). reflexivity.
Qed.

Lemma msg_of_trimmed_output (e : CtxErr) (err : option string) (o o' : string) :
  TrimSpace o = TrimSpace o' ->
  apply_msg e err o = apply_msg e err o' /\ reset_msg err o = reset_msg err o'.
Proof. intros H. unfold apply_msg, reset_msg. rewrite H. split; reflexivity. Qed.

(** ** The command line of [apply] *)

Lemma two_digits (k : Z) :
  0 <= k < 100 ->
  pad_left 2 (digits k) = String (digit_char (k / 10)) (String (digit_char (k mod 10)) "").
Proof.
  intros H.
  assert (Hn : exists n, (n < 100)%nat /\ k = Z.of_nat n).
  { exists (Z.to_nat k). lia. }
  destruct Hn as (n & Hn & ->). clear H.
  do 100 (destruct n as [| n]; [ reflexivity | ]). lia.
Qed.

(** X18: the integer printed for a magnitude with a fraction is a
    nearest one: it is off by at most half a unit of the last place, so
    the [-b] and [-g] arguments are within half a hundredth of the slider
    values. *)
Lemma round_scaled_nearest (prec : nat) (m : positive) (e : Z) :
  e < 0 ->
  0 <= round_scaled prec m e
  /\ 2 * Z.abs (round_scaled prec m e * 2 ^ (- e) - Z.pos m * 10 ^ Z.of_nat prec) <= 2 ^ (- e).
Proof.
  intros He. unfold round_scaled.
  destruct (Z.leb_spec 0 e) as [ | _ ]; [ lia | ].
  set (d := 2 ^ (- e)). set (sc := Z.pos m * 10 ^ Z.of_nat prec).
  assert (Hd : 0 < d) by (apply Z.pow_pos_nonneg; lia).
  assert (Hsc : 0 <= sc)
    by (unfold sc; apply Z.mul_nonneg_nonneg; [ lia | apply Z.pow_nonneg; lia ]).
  pose proof (Z.div_mod sc d ltac:(lia)) as Hdm.
  pose proof (Z.mod_pos_bound sc d Hd) as Hr.
  assert (Hq : 0 <= sc / d) by (apply Z.div_pos; lia).
  destruct (Z.ltb_spec (2 * (sc mod d)) d); [ nia | ].
  destruct (Z.ltb_spec d (2 * (sc mod d))); [ nia | ].
  destruct (Z.even (sc / d)); nia.
Qed.

(** [%.2f] of a finite, non-zero number: sign, integer part, a point and
    exactly two digits. *)
Lemma Sprintf_f_two_places (f : float) (neg : bool) (m : positive) (e : Z) :
  Prim2SF f = S754_finite neg m e ->
  Sprintf_f 2 f =
    (if neg then "-" else "") +:+ digits (round_scaled 2 m e / 100) +:+ "." +:+
    String (digit_char (round_scaled 2 m e mod 100 / 10))
      (String (digit_char ((round_scaled 2 m e mod 100) mod 10)) "").
Proof.
  intros H. unfold Sprintf_f. rewrite H. unfold fixed.
  change (10 ^ Z.of_nat 2) with 100.
  rewrite two_digits by (apply Z.mod_pos_bound; lia). reflexivity.
Qed.

Lemma round_scaled_is_nearest (prec : nat) (m : positive) (e : Z) :
  0 <= round_scaled prec m e /\ nearest prec m e (round_scaled prec m e).
Proof.
  unfold round_scaled, nearest.
  assert (Hp : 0 < 10 ^ Z.of_nat prec) by (apply Z.pow_pos_nonneg; lia).
  destruct (Z.leb_spec 0 e) as [He | He].
  { assert (0 < 2 ^ e) by (apply Z.pow_pos_nonneg; lia). split; [ nia | ring ]. }
  set (d := 2 ^ (- e)). set (sc := Z.pos m * 10 ^ Z.of_nat prec).
  assert (Hd : 0 < d) by (apply Z.pow_pos_nonneg; lia).
  assert (Hsc : 0 <= sc) by (unfold sc; nia).
  pose proof (Z.div_mod sc d ltac:(lia)) as Hdm.
  pose proof (Z.mod_pos_bound sc d Hd) as Hr.
  assert (Hq : 0 <= sc / d) by (apply Z.div_pos; lia).
  destruct (Z.ltb_spec (2 * (sc mod d)) d); [ split; [ lia | split; [ nia | nia ] ] | ].
  destruct (Z.ltb_spec d (2 * (sc mod d))); [ split; [ lia | split; [ nia | nia ] ] | ].
  destruct (Z.even (sc / d)) eqn:Ev.
  - split; [ lia | split; [ nia | intros _; exact Ev ] ].
  - split; [ lia | split; [ nia | intros _ ] ].
    change (sc / d + 1) with (Z.succ (sc / d)).
    rewrite Z.even_succ, <- Z.negb_even, Ev. reflexivity.
Qed.

(** The specification fixes the number: two nearest decimals are one. *)
Lemma nearest_unique (prec : nat) (m : positive) (e : Z) (n n' : Z) :
  nearest prec m e n -> nearest prec m e n' -> n = n'.
Proof.
  unfold nearest. destruct (Z.leb_spec 0 e) as [ | He ]; [ congruence | ].
  set (d := 2 ^ (- e)). set (sc := Z.pos m * 10 ^ Z.of_nat prec).
  intros (H1 & E1) (H2 & E2).
  assert (Hd : 0 < d) by (apply Z.pow_pos_nonneg; lia).
  assert (Hn : n = n' \/ n' = n + 1 \/ n = n' + 1).
  { assert (Hk : -1 <= n - n' <= 1); [ | lia ].
    split.
    - destruct (Z.le_gt_cases (-1) (n - n')) as [ | Hlt ]; [ assumption | exfalso ].
      assert (2 * d <= (n' - n) * d) by nia. lia.
    - destruct (Z.le_gt_cases (n - n') 1) as [ | Hlt ]; [ assumption | exfalso ].
      assert (2 * d <= (n - n') * d) by nia. lia. }
  destruct Hn as [Hn | [Hn | Hn]]; [ exact Hn | exfalso.. ].
  - subst n'.
    assert (T1 : 2 * Z.abs (n * d - sc) = d) by lia.
    assert (T2 : 2 * Z.abs ((n + 1) * d - sc) = d) by lia.
    specialize (E1 T1). specialize (E2 T2).
    change (n + 1) with (Z.succ n) in E2.
    rewrite Z.even_succ, <- Z.negb_even, E1 in E2. discriminate E2.
  - subst n.
    assert (T1 : 2 * Z.abs ((n' + 1) * d - sc) = d) by lia.
    assert (T2 : 2 * Z.abs (n' * d - sc) = d) by lia.
    specialize (E1 T1). specialize (E2 T2).
    change (n' + 1) with (Z.succ n') in E1.
    rewrite Z.even_succ, <- Z.negb_even, E2 in E1. discriminate E1.
Qed.

Lemma read_digits_acc (d : Decimal.uint) (p : positive) :
  read_digits (Z.pos p) (NilEmpty.string_of_uint d) = Some (Z.pos (Pos.of_uint_acc d p)).
Proof.
  revert p. induction d; intros p; cbn [NilEmpty.string_of_uint read_digits Pos.of_uint_acc];
    [ reflexivity | .. ];
    (change (digit_value _) with (Some 0) || change (digit_value _) with (Some 1)
     || change (digit_value _) with (Some 2) || change (digit_value _) with (Some 3)
     || change (digit_value _) with (Some 4) || change (digit_value _) with (Some 5)
     || change (digit_value _) with (Some 6) || change (digit_value _) with (Some 7)
     || change (digit_value _) with (Some 8) || change (digit_value _) with (Some 9));
    cbv iota; rewrite <- IHd; f_equal; lia.
Qed.

Lemma read_digits_uint (d : Decimal.uint) :
  read_digits 0 (NilEmpty.string_of_uint d) = Some (Z.of_N (N.of_uint d)).
Proof.
  unfold N.of_uint.
  induction d; cbn [NilEmpty.string_of_uint read_digits Pos.of_uint];
    [ reflexivity | exact IHd | .. ];
    (change (digit_value _) with (Some 1)
     || change (digit_value _) with (Some 2) || change (digit_value _) with (Some 3)
     || change (digit_value _) with (Some 4) || change (digit_value _) with (Some 5)
     || change (digit_value _) with (Some 6) || change (digit_value _) with (Some 7)
     || change (digit_value _) with (Some 8) || change (digit_value _) with (Some 9));
    cbv iota; apply (read_digits_acc d).
Qed.

Lemma all_digits_uint (d : Decimal.uint) : all_digits (NilEmpty.string_of_uint d) = true.
Proof. induction d; [ reflexivity | exact IHd.. ]. Qed.

Lemma digits_uint (n : Z) :
  digits n = NilEmpty.string_of_uint (N.to_uint (Z.to_N n)).
Proof.
  unfold digits, NilZero.string_of_uint.
  destruct (N.to_uint (Z.to_N n)) eqn:E; try reflexivity.
  exfalso. destruct (Z.to_N n) as [| p]; [ discriminate E | ].
  exact (DecimalPos.Unsigned.to_uint_nonnil p E).
Qed.

Lemma all_digits_digits (n : Z) : all_digits (digits n) = true.
Proof. rewrite digits_uint. apply all_digits_uint. Qed.

(** A number is printed without sign, with its digits and without a
    leading zero. *)
Lemma read_nat_digits (n : Z) : 0 <= n -> read_nat (digits n) = Some n.
Proof.
  intros Hn. rewrite digits_uint.
  pose proof (read_digits_uint (N.to_uint (Z.to_N n))) as Hr.
  rewrite DecimalN.Unsigned.of_to, Z2N.id in Hr by exact Hn.
  pose proof (DecimalN.Unsigned.to_of (N.to_uint (Z.to_N n))) as Hu.
  rewrite DecimalN.Unsigned.of_to in Hu.
  destruct (N.to_uint (Z.to_N n)) as [| d | d | d | d | d | d | d | d | d | d ] eqn:E;
    cbn [NilEmpty.string_of_uint] in *.
  - destruct (Z.to_N n) as [| p]; [ discriminate E | ].
    exfalso. exact (DecimalPos.Unsigned.to_uint_nonnil p E).
  - destruct d; [ exact Hr | exfalso.. ].
    all: rewrite DecimalFacts.unorm_D0 in Hu.
    all: match type of Hu with
         | _ = Decimal.unorm ?y =>
             pose proof (DecimalFacts.nb_digits_unorm y ltac:(discriminate)) as Hb;
             rewrite <- Hu in Hb; cbn [Decimal.nb_digits] in Hb; lia
         end.
  - destruct d; exact Hr.
  - destruct d; exact Hr.
  - destruct d; exact Hr.
  - destruct d; exact Hr.
  - destruct d; exact Hr.
  - destruct d; exact Hr.
  - destruct d; exact Hr.
  - destruct d; exact Hr.
  - destruct d; exact Hr.
Qed.

Lemma digits_head (n : Z) :
  exists c r, digits n = String c r /\ Ascii.eqb c "-" = false /\ Ascii.eqb c "." = false.
Proof.
  rewrite digits_uint.
  destruct (N.to_uint (Z.to_N n)) eqn:E; cbn [NilEmpty.string_of_uint];
    try (eexists _, _; repeat split; reflexivity).
  exfalso. destruct (Z.to_N n) as [| p]; [ discriminate E | ].
  exact (DecimalPos.Unsigned.to_uint_nonnil p E).
Qed.

Lemma read_int_Sprintf_d (t : Z) : read_int (Sprintf_d t) = Some t.
Proof.
  unfold Sprintf_d. destruct (Z.ltb_spec t 0) as [Ht | Ht].
  - change ("-" +:+ digits (- t)) with (String "-" (digits (- t))).
    cbn [read_int]. change (Ascii.eqb "-" "-") with true. cbv iota.
    rewrite read_nat_digits by lia. cbn [option_map]. f_equal. lia.
  - destruct (digits_head t) as (c & r & E & Hc & _).
    unfold read_int. rewrite E, Hc, <- E. apply read_nat_digits, Ht.
Qed.

Lemma split_at_point_digits (ip fp : string) :
  all_digits ip = true -> split_at_point (ip +:+ String "." fp) = Some (ip, fp).
Proof.
  induction ip as [| c ip IH]; intros H.
  - reflexivity.
  - cbn [all_digits] in H. destruct (digit_value c) as [v |] eqn:Ev; [ | discriminate H ].
    change (String c ip +:+ String "." fp) with (String c (ip +:+ String "." fp)).
    cbn [split_at_point]. rewrite (IH H).
    destruct (Ascii.eqb_spec c "."); [ subst c; discriminate Ev | reflexivity ].
Qed.

Lemma digit_value_char (d : Z) : 0 <= d <= 9 -> digit_value (digit_char d) = Some d.
Proof.
  intros H. assert (E : d = 0 \/ d = 1 \/ d = 2 \/ d = 3 \/ d = 4 \/ d = 5 \/ d = 6
                        \/ d = 7 \/ d = 8 \/ d = 9) by lia.
  repeat (destruct E as [-> | E]; [ reflexivity | ]). subst d. reflexivity.
Qed.

Lemma read_two_pad (k : Z) : 0 <= k < 100 -> read_two (pad_left 2 (digits k)) = Some k.
Proof.
  intros H. rewrite two_digits by exact H. cbn [read_two].
  assert (0 <= k / 10 <= 9).
  { split; [ apply Z.div_pos; lia | ]. apply Z.lt_succ_r, Z.div_lt_upper_bound; lia. }
  pose proof (Z.mod_pos_bound k 10 ltac:(lia)).
  rewrite !digit_value_char by lia. f_equal.
  pose proof (Z.div_mod k 10 ltac:(lia)). lia.
Qed.

(** What [fixed] prints with two places reads back as the sign and the
    number of hundredths. *)
Lemma read_fixed2_fixed (neg : bool) (n : Z) :
  0 <= n -> read_fixed2 (fixed 2 neg n) = Some (neg, n).
Proof.
  intros Hn. unfold fixed. change (10 ^ Z.of_nat 2) with 100.
  set (fp := pad_left 2 (digits (n mod 100))).
  assert (Hq : 0 <= n / 100) by (apply Z.div_pos; lia).
  assert (Hbody : forall b : bool,
            match split_at_point (digits (n / 100) +:+ String "." fp) with
            | Some (ip, fp') =>
                match read_nat ip, read_two fp' with
                | Some i, Some f => Some (b, 100 * i + f)
                | _, _ => None
                end
            | None => None
            end = Some (b, n)).
  { intros b. rewrite split_at_point_digits by apply all_digits_digits.
    rewrite read_nat_digits by exact Hq. unfold fp.
    rewrite read_two_pad by (apply Z.mod_pos_bound; lia).
    f_equal. f_equal. pose proof (Z.div_mod n 100 ltac:(lia)). lia. }
  destruct neg.
  - change ("-" +:+ digits (n / 100) +:+ "." +:+ fp)
      with (String "-" (digits (n / 100) +:+ String "." fp)).
    unfold read_fixed2. change (Ascii.eqb "-" "-") with true. cbv iota. cbn [fst snd].
    apply Hbody.
  - change ("" +:+ digits (n / 100) +:+ "." +:+ fp)
      with (digits (n / 100) +:+ String "." fp).
    destruct (digits_head (n / 100)) as (c & r & E & Hc & _).
    specialize (Hbody false). rewrite E in Hbody |- *.
    change (String c r +:+ String "." fp) with (String c (r +:+ String "." fp)) in *.
    unfold read_fixed2. rewrite Hc. exact Hbody.
Qed.

Lemma Sprintf_f_shows (x : float) : shows_fixed2 x (Sprintf_f 2 x).
Proof.
  unfold shows_fixed2, Sprintf_f. destruct (Prim2SF x) as [neg | neg | | neg m e].
  - apply read_fixed2_fixed. lia.
  - destruct neg; reflexivity.
  - reflexivity.
  - destruct (round_scaled_is_nearest 2 m e) as (H0 & Hn).
    exists (round_scaled 2 m e). split; [ apply read_fixed2_fixed, H0 | exact Hn ].
Qed.

(** C8: [apply(t, b, g)] starts exactly one command, [redshift] with
    the nine arguments [-m randr -P -O <t> -g <g>:<g>:<g> -b <b>] in this
    order, under a context that expires [timeout] later and whose cancel
    function is stored in [u.cancel].  The argument after [-O] is the
    decimal numeral of the integer [t]; the one after [-b] and, three
    times and separated by colons, the one after [-g] show [b] and [g]
    with exactly two digits after the point, rounded to the nearest
    hundredth. *)
Theorem apply_command_line (t : Z) (b g : float) (t0 : Z) (s : Sys) :
  procs (apply_begin (t, b, g) t0 s) =
    procs s ++ [mkProc ("redshift" :: apply_args t b g) ByApply (t0 + timeout) NoErr true]
  /\ cancel (u (apply_begin (t, b, g) t0 s)) = Some (length (procs s))
  /\ exists st sg sb,
       apply_args t b g =
         [ "-m"; "randr"; "-P"; "-O"; st; "-g"; sg +:+ ":" +:+ sg +:+ ":" +:+ sg; "-b"; sb ]
       /\ read_int st = Some t
       /\ shows_fixed2 g sg
       /\ shows_fixed2 b sb.
Proof.
  split; [ destruct_sys s; reflexivity | ].
  split; [ destruct_sys s; reflexivity | ].
  exists (Sprintf_d t), (Sprintf_f 2 g), (Sprintf_f 2 b).
  split; [ reflexivity | ].
  split; [ apply read_int_Sprintf_d | ].
  split; apply Sprintf_f_shows.
Qed.

Example apply_args_ex1 :
  apply_args 4500 0.85 1.2 =
    [ "-m"; "randr"; "-P"; "-O"; "4500"; "-g"; "1.20:1.20:1.20"; "-b"; "0.85" ].
Proof. reflexivity. Qed.

(** ** Start-up *)

(** C9: when [exec.LookPath] does not find the tool, the window opens
    with the fixed not-found text in the status label, and the check
    itself starts no command, timer or queued call. *)
Theorem startup_tool_not_found :
  out (u (main_init None)) =
    "Error: 'redshift' not found in PATH. Install it (e.g., sudo apt install redshift)."
  /\ procs (main_init None) = []
  /\ timers (main_init None) = []
  /\ mainq (main_init None) = []
  /\ (forall path, out (u (main_init (Some path))) = "Ready."
                   /\ procs (main_init (Some path)) = []).
Proof. repeat split. Qed.

(** ** Frame lemmas: what each operation touches *)

Lemma map_alter_same {A B} (key : A -> B) (f : A -> A) (i : nat) (l : list A) :
  (forall x, key (f x) = key x) -> map key (alter f i l) = map key l.
Proof.
  intros Hf. revert i. induction l as [| x l IH]; intros [| i]; simpl; try reflexivity.
  - rewrite Hf. reflexivity.
  - f_equal. apply IH.
Qed.

Lemma map_map_same {A B} (key : A -> B) (f : A -> A) (l : list A) :
  (forall x, key (f x) = key x) -> map key (map f l) = map key l.
Proof.
  intros Hf. induction l as [| x l IH]; simpl; [ reflexivity | ].
  rewrite Hf, IH. reflexivity.
Qed.

Lemma cancel_ctx_key (p : Proc) :
  (caller (cancel_ctx p), argv (cancel_ctx p)) = (caller p, argv p).
Proof. unfold cancel_ctx. destruct (ctxErr p); reflexivity. Qed.

Lemma expire_key (t : Z) (p : Proc) :
  (caller (expire t p), argv (expire t p)) = (caller p, argv p).
Proof. unfold expire. destruct (ctxErr p); try reflexivity. destruct (_ <=? _); reflexivity. Qed.

Lemma scheduleApply_spec (t : Z) (b g : float) (s : Sys) :
  scheduleApply t b g s =
    mkSys
      (with_timer (Some (length (timers s))) (with_cancel None (u s)))
      (now s)
      (match timer (u s) with
       | Some i => alter stopped i (timers s)
       | None => timers s
       end ++ [mkTimer (now s + debounce) (t, b, g) true])
      (match cancel (u s) with
       | Some c => alter cancel_ctx c (procs s)
       | None => procs s
       end)
      (mainq s) (ready s).
Proof.
  destruct_sys s. unfold scheduleApply. simpl.
  destruct cancel0, timer0; unfold AfterFunc; simpl; rewrite ?length_alter; reflexivity.
Qed.

Lemma onChange_silenced (s : Sys) : silence (u s) = true -> onChange s = s.
Proof. intros H. unfold onChange. rewrite H. reflexivity. Qed.

Lemma onChange_live (s : Sys) :
  silence (u s) = false ->
  onChange s =
    scheduleApply (int_of_float64 (Value (tempK (u s)))) (Value (brightness (u s)))
      (Value (gamma (u s))) s.
Proof. intros H. unfold onChange. rewrite H. reflexivity. Qed.

Lemma SetValue_silenced (w : Param) (v : float) (s : Sys) :
  silence (u s) = true ->
  SetValue w v s = with_u (with_slider w (set_value_result (slider w (u s)) v)) s.
Proof.
  intros H. unfold SetValue, Slider_SetValue, set_value_result.
  destruct (PrimFloat.eqb (Value (slider w (u s))) v).
  - reflexivity.
  - destruct (PrimFloat.eqb (Value (slider w (u s))) (clamp (slider w (u s)) v)).
    + destruct_sys s. destruct w; reflexivity.
    + unfold OnChanged. rewrite onChange_silenced.
      * destruct_sys s. destruct w; reflexivity.
      * destruct_sys s. destruct w; exact H.
Qed.

Lemma reset_done_spec (msg : string) (s : Sys) :
  reset_done msg s =
    mkSys
      (mkUiState
         (set_value_result (tempK (u s)) 6500)
         (set_value_result (brightness (u s)) 1)
         (set_value_result (gamma (u s)) 1)
         msg (timer (u s)) (cancel (u s)) false)
      (now s) (timers s) (procs s) (mainq s) (ready s).
Proof.
  unfold reset_done.
  rewrite (SetValue_silenced PTemp) by reflexivity.
  rewrite (SetValue_silenced PBright) by reflexivity.
  rewrite (SetValue_silenced PGamma) by reflexivity.
  destruct_sys s. reflexivity.
Qed.

(** ** Floating-point equality against a finite constant *)

Lemma float_eqb_finite (x y : float) (sg : bool) (m : positive) (e : Z) :
  Prim2SF y = S754_finite sg m e -> PrimFloat.eqb x y = true -> x = y.
Proof.
  intros Hy H. apply Prim2SF_inj. rewrite Hy.
  rewrite FloatAxioms.eqb_spec, Hy in H. unfold SFeqb, SFcompare in H.
  destruct (Prim2SF x) as [ s0 | s0 | | s1 m1 e1 ];
    [ destruct sg; discriminate H | destruct s0; discriminate H | discriminate H | ].
  assert (Heq : e1 = e /\ m1 = m /\ s1 = sg).
  { destruct s1, sg; try discriminate H;
      destruct (Z.compare_spec e1 e); try discriminate H;
      change (Pos.compare_cont Eq m1 m) with (Pos.compare m1 m) in H;
      destruct (Pos.compare_spec m1 m); try discriminate H; auto. }
  destruct Heq as (-> & -> & ->). reflexivity.
Qed.

Lemma set_value_result_Value (ls : LabeledSlider) (v : float) (sg : bool) (m : positive) (e : Z) :
  Prim2SF v = S754_finite sg m e -> clamp ls v = v ->
  Value (set_value_result ls v) = v.
Proof.
  intros Hv Hc. unfold set_value_result.
  destruct (PrimFloat.eqb (Value ls) v) eqn:E; simpl.
  - eapply float_eqb_finite; eassumption.
  - exact Hc.
Qed.

(** ** Reset *)

Lemma finish_mainq (pid : nat) (outBytes : string) (err : option string) (s : Sys) (p : Proc) :
  procs s !! pid = Some p -> waiting p = true ->
  mainq (finish pid outBytes err s) =
    mainq s ++ [match caller p with
                | ByApply => SetText (apply_msg (ctxErr p) err outBytes)
                | ByReset => ResetDone (reset_msg err outBytes)
                end].
Proof.
  intros Hp Hw. unfold finish. rewrite Hp, Hw. destruct_sys s. reflexivity.
Qed.

Lemma lookup_new_proc (l : list Proc) (p : Proc) : (l ++ [p]) !! length l = Some p.
Proof. apply list_lookup_middle. reflexivity. Qed.

Lemma reset_begin_spec (s : Sys) :
  reset_begin s =
    mkSys (with_cancel (Some (length (procs s))) (u s)) (now s) (timers s)
      (procs s ++ [mkProc ["redshift"; "-x"] ByReset (now s + timeout) NoErr true])
      (mainq s) (ready s).
Proof. destruct_sys s. reflexivity. Qed.

(** C5: with the flag set the change handler returns the state as it got
    it; [reset]'s closure sets the flag, makes the three writes with the
    flag set and clears it, so the restoration arms no timer, cancels and
    starts no command and queues nothing, whatever the sliders showed. *)
Theorem silenced_restore_schedules_nothing (msg : string) (s : Sys) :
  (forall s', silence (u s') = true -> onChange s' = s')
  /\ reset_done msg s =
       with_u (with_out msg)
         (with_u (with_silence false)
            (SetValue PGamma 1 (SetValue PBright 1 (SetValue PTemp 6500
               (with_u (with_silence true) s)))))
  /\ silence (u (with_u (with_silence true) s)) = true
  /\ silence (u (SetValue PTemp 6500 (with_u (with_silence true) s))) = true
  /\ silence (u (SetValue PBright 1 (SetValue PTemp 6500 (with_u (with_silence true) s)))) = true
  /\ timers (reset_done msg s) = timers s
  /\ procs (reset_done msg s) = procs s
  /\ mainq (reset_done msg s) = mainq s
  /\ timer (u (reset_done msg s)) = timer (u s)
  /\ cancel (u (reset_done msg s)) = cancel (u s)
  /\ silence (u (reset_done msg s)) = false.
Proof.
  split; [ exact onChange_silenced | ].
  split; [ reflexivity | ].
  split; [ reflexivity | ].
  split; [ rewrite SetValue_silenced by reflexivity; reflexivity | ].
  split; [ rewrite (SetValue_silenced PTemp) by reflexivity;
           rewrite (SetValue_silenced PBright) by reflexivity; reflexivity | ].
  rewrite reset_done_spec. repeat split.
Qed.

(** The same, seen from the event loop: running the queued closure of a
    [reset] leaves the timers and the started commands as they were. *)
Lemma MainLoop_reset_done_quiet (msg : string) (q : list MainCall) (s : Sys) :
  mainq s = ResetDone msg :: q ->
  timers (step s MainLoop) = timers s /\ procs (step s MainLoop) = procs s
  /\ mainq (step s MainLoop) = q.
Proof.
  intros H. unfold step. rewrite H. unfold run_main. rewrite reset_done_spec.
  destruct_sys s. repeat split.
Qed.

Lemma restored_values (us : uiState) :
  ranges_ok us ->
  Value (set_value_result (tempK us) 6500) = 6500%float
  /\ Value (set_value_result (brightness us) 1) = 1%float
  /\ Value (set_value_result (gamma us) 1) = 1%float.
Proof.
  intros (H1 & H2 & H3 & H4 & H5 & H6).
  repeat split; eapply set_value_result_Value; try reflexivity; unfold clamp.
  - rewrite H1, H2. reflexivity.
  - rewrite H3, H4. reflexivity.
  - rewrite H5, H6. reflexivity.
Qed.

(** C7 at a concrete input: [reset] runs [redshift -x] under a context
    that expires [timeout] later, but whatever that context says when the
    command returns, the message is [reset_msg] of the error and the
    output.  A [reset] whose command is still running when the three
    seconds are over is killed through its context, and its message is
    the one of an ordinary failure with the same error; [apply] in the
    same situation publishes its time-out text. *)
Theorem reset_timeout_reported_as_failure :
  (forall s, procs (reset_begin s) =
               procs s ++ [mkProc ["redshift"; "-x"] ByReset (now s + timeout) NoErr true])
  /\ (forall s pid p outBytes err,
        procs s !! pid = Some p -> caller p = ByReset -> waiting p = true ->
        mainq (finish pid outBytes err s) = mainq s ++ [ResetDone (reset_msg err outBytes)])
  /\ ctxErr <$> procs (run (main_init (Some "/usr/bin/redshift")) [ResetTapped; Elapse timeout]) !! 0%nat
    = Some DeadlineExceeded
  /\ out (u (run (main_init (Some "/usr/bin/redshift"))
               [ResetTapped; Elapse timeout; Exited 0 "" (Some "signal: killed"); MainLoop]))
     = "reset error: signal: killed"
  /\ out (u (run (main_init (Some "/usr/bin/redshift"))
               [ResetTapped; Exited 0 "" (Some "signal: killed"); MainLoop]))
     = "reset error: signal: killed"
  /\ out (u (run (main_init (Some "/usr/bin/redshift"))
               [Dragged PTemp 4500; Elapse debounce; Elapse timeout;
                Exited 0 "" (Some "signal: killed"); MainLoop]))
     = "Timed out applying settings.".
Proof.
  split; [ intros s; rewrite reset_begin_spec; reflexivity | ].
  split; [ | repeat split ].
  intros s pid p outBytes err Hp Hc Hw.
  rewrite (finish_mainq _ _ _ _ _ Hp Hw), Hc. reflexivity.
Qed.

(** ** One command at a time? *)

(** [scheduleApply] cancels the command whose cancel function is in the
    slot: afterwards that command is no longer in flight. *)
Lemma scheduleApply_cancels_slot (t : Z) (b g : float) (s : Sys) (c : nat) (p : Proc) :
  cancel (u s) = Some c -> procs s !! c = Some p ->
  exists p', procs (scheduleApply t b g s) !! c = Some p' /\ in_flight p' = false.
Proof.
  intros Hc Hp. rewrite scheduleApply_spec. simpl. rewrite Hc.
  exists (cancel_ctx p). split.
  - rewrite list_lookup_alter_eq, Hp. reflexivity.
  - destruct p as [? ? ? e ?]. destruct e; apply andb_false_r.
Qed.

(** C3 at a concrete input: [reset] stores its own cancel function in
    the slot and starts its command, but cancels nothing: every command
    started before is left as it was.  After one slider change, 250 ms of
    quiet and a tap on the button, the [apply] command and the [reset]
    command are both in flight, and the slot refers to the [reset]
    command only.  Likewise a [reset] tapped during the debounce delay is
    still in flight when the timer fires and [apply] starts its own
    command. *)
Theorem reset_leaves_running_apply_in_flight :
  (forall s, exists p, procs (reset_begin s) = procs s ++ [p])
  /\ invocations (run (main_init (Some "/usr/bin/redshift"))
                    [Dragged PTemp 4500; Elapse debounce; ResetTapped])
     = [ (ByApply, ["redshift"; "-m"; "randr"; "-P"; "-O"; "4500";
                    "-g"; "1.00:1.00:1.00"; "-b"; "1.00"]);
         (ByReset, ["redshift"; "-x"]) ]
  /\ map in_flight (procs (run (main_init (Some "/usr/bin/redshift"))
                             [Dragged PTemp 4500; Elapse debounce; ResetTapped]))
     = [true; true]
  /\ cancel (u (run (main_init (Some "/usr/bin/redshift"))
                  [Dragged PTemp 4500; Elapse debounce; ResetTapped]))
     = Some 1%nat
  /\ map (fun p => (caller p, in_flight p))
        (procs (run (main_init (Some "/usr/bin/redshift"))
                  [Dragged PTemp 4500; Elapse (100 * Millisecond); ResetTapped;
                   Elapse (150 * Millisecond)]))
     = [(ByReset, true); (ByApply, true)].
Proof.
  split; [ | repeat split ].
  intros s. rewrite reset_begin_spec. eexists. reflexivity.
Qed.

(** ** A superseded [apply] *)

Lemma Dragged_spec (w : Param) (v : float) (s : Sys) :
  step s (Dragged w v) = onChange (with_u (moved w v) s).
Proof. destruct_sys s. destruct w; reflexivity. Qed.

Lemma Dragged_sets_value (w : Param) (v : float) (s : Sys) :
  Value (slider w (u (step s (Dragged w v)))) = v.
Proof.
  rewrite Dragged_spec. unfold onChange.
  destruct (silence _); [ | rewrite scheduleApply_spec ];
    destruct_sys s; destruct w; reflexivity.
Qed.

(** C4, as stated, fails: the first [apply] is running when a second
    change cancels it; when its killed command returns, its message is
    queued all the same and becomes the status text. *)
Lemma superseded_apply_reaches_status :
  ctxErr <$> procs (run (main_init (Some "/usr/bin/redshift"))
                      [Dragged PTemp 4500; Elapse debounce; Dragged PTemp 4600]) !! 0%nat
    = Some Canceled
  /\ out (u (run (main_init (Some "/usr/bin/redshift"))
               [Dragged PTemp 4500; Elapse debounce; Dragged PTemp 4600;
                Exited 0 "" (Some "signal: killed"); MainLoop]))
     = "redshift error: signal: killed".
Proof. split; reflexivity. Qed.

(** C4 (amended): when a change supersedes a running [apply], the command
    in the slot is cancelled, and nothing is discarded: when the command
    returns, [apply] chooses the message exactly as for a run that was
    not cancelled and did not pass its deadline ("redshift error: " and
    the output, or the error's description when there is no output, if
    the killed command returned an error) and queues it for the status
    label, where the UI thread then shows it. *)
Theorem superseded_apply_is_published
    (s : Sys) (w : Param) (v : float) (c : nat) (p : Proc)
    (outBytes : string) (err : option string) :
  silence (u s) = false -> cancel (u s) = Some c -> procs s !! c = Some p ->
  caller p = ByApply -> waiting p = true -> ctxErr p = NoErr ->
  ctxErr <$> procs (step s (Dragged w v)) !! c = Some Canceled
  /\ mainq (run s [Dragged w v; Exited c outBytes err]) =
       mainq s ++ [SetText (apply_msg Canceled err outBytes)]
  /\ apply_msg Canceled err outBytes = apply_msg NoErr err outBytes
  /\ (forall d, err = Some d ->
        apply_msg Canceled err outBytes =
          "redshift error: " +:+ (if String.eqb (TrimSpace outBytes) "" then d
                                  else TrimSpace outBytes))
  /\ (mainq s = [] ->
        out (u (run s [Dragged w v; Exited c outBytes err; MainLoop])) =
          apply_msg Canceled err outBytes).
Proof.
  intros Hs Hc Hp Hcaller Hw He.
  assert (E1 : procs (step s (Dragged w v)) = alter cancel_ctx c (procs s)
               /\ mainq (step s (Dragged w v)) = mainq s).
  { rewrite Dragged_spec, onChange_live, scheduleApply_spec.
    - destruct_sys s. destruct w; simpl in *; rewrite Hc; split; reflexivity.
    - destruct_sys s. destruct w; exact Hs. }
  destruct E1 as (E1 & Eq).
  assert (Hl : procs (step s (Dragged w v)) !! c = Some (with_ctxErr Canceled p)).
  { rewrite E1, list_lookup_alter_eq, Hp. simpl. unfold cancel_ctx. rewrite He. reflexivity. }
  assert (E2 : mainq (run s [Dragged w v; Exited c outBytes err]) =
               mainq s ++ [SetText (apply_msg Canceled err outBytes)]).
  { change (run s [Dragged w v; Exited c outBytes err])
      with (finish c outBytes err (step s (Dragged w v))).
    rewrite (finish_mainq _ _ _ _ _ Hl Hw), Eq. simpl. rewrite Hcaller. reflexivity. }
  split; [ rewrite Hl; reflexivity | ].
  split; [ exact E2 | ].
  split; [ reflexivity | ].
  split.
  - intros d ->. unfold apply_msg. simpl. destruct (String.eqb _ _); reflexivity.
  - intros Hq.
    change (run s [Dragged w v; Exited c outBytes err; MainLoop])
      with (step (run s [Dragged w v; Exited c outBytes err]) MainLoop).
    unfold step at 1. rewrite E2, Hq. reflexivity.
Qed.

Lemma superseded_apply_is_published_witness :
  out (u (run (run (main_init (Some "/usr/bin/redshift")) [Dragged PTemp 4500; Elapse debounce])
            [Dragged PGamma 1.5; Exited 0 "" (Some "signal: killed"); MainLoop]))
  = apply_msg Canceled (Some "signal: killed") "".
Proof.
  apply (superseded_apply_is_published
           (run (main_init (Some "/usr/bin/redshift")) [Dragged PTemp 4500; Elapse debounce])
           PGamma 1.5 0
           (mkProc ("redshift" :: apply_args 4500 1 1) ByApply (debounce + timeout) NoErr true)
           "" (Some "signal: killed"));
    reflexivity.
Defined.

(** ** Timers *)

Lemma fire_spec (i : nat) (tm : Timer) (s : Sys) :
  fire i tm s =
    mkSys (with_cancel (Some (length (procs s))) (u s)) (now s)
      (alter stopped i (timers s))
      (procs s ++ [mkProc ("redshift" :: apply_args (fst (fst (targs tm))) (snd (fst (targs tm)))
                                            (snd (targs tm)))
                     ByApply (Z.max (now s) (when tm) + timeout) NoErr true])
      (mainq s) (ready s).
Proof.
  destruct_sys s. destruct tm as [wh [[t b] g] pe]. reflexivity.
Qed.

Lemma filter_due_none (t : Z) (f : nat -> Timer -> nat * Timer) (l : list Timer) :
  (forall i x, snd (f i x) = x) ->
  Forall (fun tm => pending tm = false) l ->
  List.filter (due t) (imap f l) = [].
Proof.
  intros Hf H. revert f Hf. induction H as [| tm l Hp _ IH]; intros f Hf; simpl.
  - reflexivity.
  - unfold due at 1. rewrite Hf, Hp. simpl. apply IH. intros i x. apply Hf.
Qed.

Lemma due_timers_last (t : Z) (l : list Timer) (tm : Timer) (s : Sys) :
  timers s = l ++ [tm] -> Forall (fun x => pending x = false) l ->
  due_timers t s = if due t (length l, tm) then [(length l, tm)] else [].
Proof.
  intros Ht Hl. unfold due_timers. rewrite Ht, imap_app, List.filter_app.
  rewrite filter_due_none by (auto || reflexivity). simpl.
  rewrite Nat.add_0_r. reflexivity.
Qed.

Lemma stopped_all_idle (s : Sys) :
  one_pending s ->
  Forall (fun tm => pending tm = false)
    (match timer (u s) with
     | Some i => alter stopped i (timers s)
     | None => timers s
     end).
Proof.
  intros H. apply Forall_lookup. intros j tm Hj.
  destruct (pending tm) eqn:Hp; [ exfalso | reflexivity ].
  destruct (timer (u s)) as [i |] eqn:Hi.
  - destruct (decide (i = j)) as [-> | Hne].
    + rewrite list_lookup_alter_eq in Hj.
      destruct (timers s !! j); simpl in Hj; [ | discriminate Hj ].
      injection Hj as <-. discriminate Hp.
    + rewrite list_lookup_alter_ne in Hj by exact Hne.
      specialize (H j tm Hj Hp). congruence.
  - specialize (H j tm Hj Hp). congruence.
Qed.

Lemma drag_arms (w : Param) (v : float) (s : Sys) :
  inv s -> armed (invocations s) (step s (Dragged w v)).
Proof.
  intros (Hs & Hone). rewrite Dragged_spec, onChange_live, scheduleApply_spec.
  2: { destruct_sys s. destruct w; exact Hs. }
  assert (Hidle := stopped_all_idle s Hone).
  split; [ destruct_sys s; destruct w; exact Hs | ]. split.
  - unfold invocations. destruct_sys s. destruct w; simpl;
      destruct cancel0; try reflexivity; apply map_alter_same, cancel_ctx_key.
  - exists (match timer (u s) with
            | Some i => alter stopped i (timers s)
            | None => timers s
            end).
    split; [ | split ].
    + destruct_sys s. destruct w; reflexivity.
    + exact Hidle.
    + destruct_sys s. destruct w; simpl; destruct timer0; rewrite ?length_alter; reflexivity.
Qed.

Lemma armed_inv (base : list (Caller * list string)) (s : Sys) : armed base s -> inv s.
Proof.
  intros (Hs & _ & l & Ht & Hl & Hu). split; [ exact Hs | ].
  intros j tm Hj Hp. rewrite Ht in Hj. apply lookup_snoc_Some in Hj.
  destruct Hj as [(_ & Hj) | (-> & _)]; [ | exact Hu ].
  rewrite (Forall_lookup_1 _ _ _ _ Hl Hj) in Hp. discriminate Hp.
Qed.

Lemma elapse_armed (base : list (Caller * list string)) (d : Z) (s : Sys) :
  armed base s -> 0 <= d ->
  elapse d s =
    with_now (now s + d)
      (with_procs (map (expire (now s + d)))
         (if debounce <=? d
          then fire (Nat.pred (length (timers s)))
                 (mkTimer (now s + debounce) (snapshot (u s)) true) s
          else s)).
Proof.
  intros (Hs & Hb & l & Ht & Hl & Hu) Hd.
  unfold elapse. destruct (Z.ltb_spec d 0) as [ | _ ]; [ lia | ].
  rewrite (due_timers_last _ _ _ _ Ht Hl). unfold due. simpl.
  rewrite Ht, length_app, Nat.add_1_r. simpl.
  destruct (Z.leb_spec (now s + debounce) (now s + d)),
           (Z.leb_spec debounce d); try lia; reflexivity.
Qed.

(** Less than [debounce] after a change nothing fires. *)
Lemma elapse_short (base : list (Caller * list string)) (gap : Z) (s : Sys) :
  armed base s -> 0 <= gap < debounce ->
  inv (elapse gap s) /\ invocations (elapse gap s) = base /\ u (elapse gap s) = u s.
Proof.
  intros Ha Hg. pose proof (armed_inv _ _ Ha) as (Hs & Hone).
  rewrite (elapse_armed _ _ _ Ha) by lia.
  destruct (Z.leb_spec debounce gap) as [ | _ ]; [ lia | ].
  destruct Ha as (_ & Hb & _).
  destruct_sys s. unfold invocations in *. simpl in *.
  split; [ split; [ exact Hs | exact Hone ] | ].
  split; [ | reflexivity ].
  rewrite <- Hb. apply map_map_same, expire_key.
Qed.

(** [debounce] or more after a change the timer has fired, once. *)
Lemma elapse_long (base : list (Caller * list string)) (idle : Z) (s : Sys) :
  armed base s -> debounce <= idle ->
  invocations (elapse idle s) =
    base ++ [(ByApply,
              "redshift" :: apply_args (int_of_float64 (Value (tempK (u s))))
                              (Value (brightness (u s))) (Value (gamma (u s))))].
Proof.
  intros Ha Hi. assert (0 < debounce) by reflexivity.
  rewrite (elapse_armed _ _ _ Ha) by lia.
  destruct (Z.leb_spec debounce idle) as [ _ | ]; [ | lia ].
  destruct Ha as (_ & Hb & _).
  rewrite fire_spec. destruct_sys s. unfold invocations in *. simpl in *.
  rewrite <- Hb, map_map_same by apply expire_key.
  rewrite map_app. reflexivity.
Qed.

Lemma burst_changes_arm (base : list (Caller * list string))
    (cs : list (Z * (Param * float))) (s : Sys) :
  armed base s ->
  Forall (fun gc => 0 <= fst gc < debounce) cs ->
  armed base
    (run s (flat_map (fun gc => [Elapse (fst gc); Dragged (fst (snd gc)) (snd (snd gc))]) cs)).
Proof.
  intros Ha Hcs. revert s Ha.
  induction Hcs as [| [gap [w v]] cs Hg _ IH]; intros s Ha; simpl.
  - exact Ha.
  - apply IH. destruct (elapse_short _ _ _ Ha Hg) as (Hinv & Hb & _).
    rewrite <- Hb. apply drag_arms. exact Hinv.
Qed.

(** C1: a burst of slider changes, each less than [debounce] after the
    one before, followed by at least [debounce] of quiet, starts exactly
    one command: the [apply] command line for the temperature, the
    brightness and the gamma that the sliders showed at the last change
    of the burst.  (Each [scheduleApply] stops the timer in [u.timer] and
    arms a new one, [debounce] from now, that carries the new
    snapshot.) *)
Theorem burst_applies_once (s : Sys) (c0 : Param * float)
    (cs : list (Z * (Param * float))) (idle : Z) :
  inv s ->
  Forall (fun gc => 0 <= fst gc < debounce) cs ->
  debounce <= idle ->
  invocations (run s (burst c0 cs idle)) =
    invocations s ++
    [(ByApply,
      "redshift" ::
        apply_args (int_of_float64 (Value (tempK (u (run s (burst_changes c0 cs))))))
          (Value (brightness (u (run s (burst_changes c0 cs)))))
          (Value (gamma (u (run s (burst_changes c0 cs))))))]
  /\ (forall t b g s',
        timers (scheduleApply t b g s') =
          match timer (u s') with
          | Some i => alter stopped i (timers s')
          | None => timers s'
          end ++ [mkTimer (now s' + 250 * Millisecond) (t, b, g) true]).
Proof.
  intros Hinv Hcs Hidle. split.
  - assert (Ha : armed (invocations s) (run s (burst_changes c0 cs))).
    { unfold burst_changes, run. simpl. apply burst_changes_arm; [ | exact Hcs ].
      apply drag_arms. exact Hinv. }
    unfold burst, run. rewrite foldl_app. simpl.
    apply (elapse_long _ _ _ Ha Hidle).
  - intros t b g s'. rewrite scheduleApply_spec. reflexivity.
Qed.

Lemma inv_main_init (lookPath : option string) : inv (main_init lookPath).
Proof.
  split.
  - destruct lookPath; reflexivity.
  - intros j tm Hj. destruct lookPath; discriminate Hj.
Qed.

Lemma burst_applies_once_witness :
  invocations
    (run (main_init (Some "/usr/bin/redshift"))
       (burst (PTemp, 3000%float)
          [ (100 * Millisecond, (PBright, 0.5%float));
            (249 * Millisecond, (PTemp, 3500%float)) ]
          debounce))
  = [ (ByApply, ["redshift"; "-m"; "randr"; "-P"; "-O"; "3500";
                 "-g"; "1.00:1.00:1.00"; "-b"; "0.50"]) ].
Proof.
  destruct (burst_applies_once (main_init (Some "/usr/bin/redshift")) (PTemp, 3000%float)
              [ (100 * Millisecond, (PBright, 0.5%float));
                (249 * Millisecond, (PTemp, 3500%float)) ]
              debounce) as (H & _).
  - split; [ reflexivity | intros j tm Hj; discriminate Hj ].
  - repeat (constructor; [ split; [ discriminate | reflexivity ] | ]). constructor.
  - discriminate.
  - rewrite H. reflexivity.
Defined.

(** ** The invariant holds in every reachable state *)

Lemma foldl_fire_frame (its : list (nat * Timer)) (s : Sys) :
  with_cancel None (u (foldl (fun acc it => fire (fst it) (snd it) acc) s its))
    = with_cancel None (u s)
  /\ (forall j tm,
        timers (foldl (fun acc it => fire (fst it) (snd it) acc) s its) !! j = Some tm ->
        pending tm = true -> timers s !! j = Some tm).
Proof.
  revert s. induction its as [| [i tm0] its IH]; intros s; simpl.
  - split; [ reflexivity | auto ].
  - destruct (IH (fire i tm0 s)) as (Hu & Ht). split.
    + rewrite Hu, fire_spec. destruct_sys s. reflexivity.
    + intros j tm Hj Hp. specialize (Ht j tm Hj Hp).
      rewrite fire_spec in Ht. simpl in Ht.
      destruct (decide (i = j)) as [-> | Hne].
      * rewrite list_lookup_alter_eq in Ht.
        destruct (timers s !! j); simpl in Ht; [ | discriminate Ht ].
        injection Ht as <-. discriminate Hp.
      * rewrite list_lookup_alter_ne in Ht by exact Hne. exact Ht.
Qed.

Lemma elapse_frame (d : Z) (s : Sys) :
  with_cancel None (u (elapse d s)) = with_cancel None (u s)
  /\ (forall j tm, timers (elapse d s) !! j = Some tm -> pending tm = true ->
                   timers s !! j = Some tm).
Proof.
  unfold elapse. destruct (d <? 0); [ split; [ reflexivity | auto ] | ].
  destruct (foldl_fire_frame (due_timers (now s + d) s) s) as (Hu & Ht).
  split.
  - rewrite <- Hu. reflexivity.
  - intros j tm Hj Hp. apply Ht; assumption.
Qed.

Lemma same_but_cancel (us us' : uiState) :
  with_cancel None us' = with_cancel None us ->
  tempK us' = tempK us /\ brightness us' = brightness us /\ gamma us' = gamma us
  /\ timer us' = timer us /\ silence us' = silence us.
Proof.
  destruct us, us'. unfold with_cancel. simpl. intros H. injection H as -> -> -> -> -> ->.
  repeat split.
Qed.

Lemma finish_frame (pid : nat) (outBytes : string) (err : option string) (s : Sys) :
  u (finish pid outBytes err s) = u s /\ timers (finish pid outBytes err s) = timers s.
Proof.
  unfold finish. destruct (procs s !! pid) as [p |]; [ | split; reflexivity ].
  destruct (waiting p); destruct_sys s; split; reflexivity.
Qed.

Lemma spawn_spec (i : nat) (tm : Timer) (s : Sys) :
  spawn i tm s =
    mkSys (u s) (now s) (alter stopped i (timers s)) (procs s) (mainq s)
      (ready s ++ [ApplyCall (targs tm)]).
Proof. destruct_sys s. reflexivity. Qed.

Lemma foldl_spawn_frame (its : list (nat * Timer)) (s : Sys) :
  u (foldl (fun acc it => spawn (fst it) (snd it) acc) s its) = u s
  /\ procs (foldl (fun acc it => spawn (fst it) (snd it) acc) s its) = procs s
  /\ mainq (foldl (fun acc it => spawn (fst it) (snd it) acc) s its) = mainq s
  /\ (forall j tm,
        timers (foldl (fun acc it => spawn (fst it) (snd it) acc) s its) !! j = Some tm ->
        pending tm = true -> timers s !! j = Some tm).
Proof.
  revert s. induction its as [| [i tm0] its IH]; intros s; simpl.
  - repeat split. auto.
  - destruct (IH (spawn i tm0 s)) as (Hu & Hp & Hq & Ht).
    rewrite Hu, Hp, Hq, spawn_spec. repeat split.
    intros j tm Hj Hpe. specialize (Ht j tm Hj Hpe).
    rewrite spawn_spec in Ht. simpl in Ht.
    destruct (decide (i = j)) as [-> | Hne].
    + rewrite list_lookup_alter_eq in Ht.
      destruct (timers s !! j); simpl in Ht; [ | discriminate Ht ].
      injection Ht as <-. discriminate Hpe.
    + rewrite list_lookup_alter_ne in Ht by exact Hne. exact Ht.
Qed.

Lemma elapse_slow_frame (d : Z) (s : Sys) :
  u (elapse_slow d s) = u s
  /\ mainq (elapse_slow d s) = mainq s
  /\ length (procs (elapse_slow d s)) = length (procs s)
  /\ (forall j tm, timers (elapse_slow d s) !! j = Some tm -> pending tm = true ->
                   timers s !! j = Some tm).
Proof.
  unfold elapse_slow. destruct (d <? 0); [ repeat split; auto | ].
  destruct (foldl_spawn_frame (due_timers (now s + d) s) s) as (Hu & Hp & Hq & Ht).
  simpl. rewrite length_map, Hu, Hp, Hq. repeat split. exact Ht.
Qed.

Lemma GoRun_cases (k : nat) (s : Sys) :
  step s (GoRun k) = s
  \/ exists p, u (step s (GoRun k)) = with_cancel (Some (length (procs s))) (u s)
               /\ procs (step s (GoRun k)) = procs s ++ [p]
               /\ timers (step s (GoRun k)) = timers s
               /\ mainq (step s (GoRun k)) = mainq s.
Proof.
  unfold step. destruct (ready s !! k) as [g |]; [ right | left; reflexivity ].
  destruct g as [[[t b] g] |]; eexists; destruct_sys s; repeat split.
Qed.

Lemma slow_step_frame (s : Sys) (ev : Event) :
  is_slow ev = true ->
  with_cancel None (u (step s ev)) = with_cancel None (u s)
  /\ mainq (step s ev) = mainq s
  /\ (forall j tm, timers (step s ev) !! j = Some tm -> pending tm = true ->
                   timers s !! j = Some tm).
Proof.
  intros Hev. destruct ev as [w v | | d | pid o e | | | d | k ]; try discriminate Hev.
  - destruct_sys s. repeat split. auto.
  - change (step s (ElapseSlow d)) with (elapse_slow d s).
    destruct (elapse_slow_frame d s) as (Hu & Hq & _ & Ht). rewrite Hu. repeat split; auto.
  - destruct (GoRun_cases k s) as [-> | (p & Hu & _ & Ht & Hq)].
    + repeat split. auto.
    + rewrite Hu, Ht, Hq. destruct_sys s. repeat split. auto.
Qed.

Lemma step_inv (s : Sys) (ev : Event) : inv s -> inv (step s ev).
Proof.
  intros Hinv.
  destruct (is_slow ev) eqn:Hslow.
  { destruct Hinv as (Hs & Hone). destruct (slow_step_frame s ev Hslow) as (Hu & _ & Ht).
    apply same_but_cancel in Hu. destruct Hu as (_ & _ & _ & Hti & Hsi).
    split; [ congruence | ].
    intros j tm Hj Hp. rewrite Hti. apply (Hone j tm); [ apply Ht | ]; assumption. }
  destruct ev as [w v | | d | pid o e | | | d | k ]; try discriminate Hslow.
  - eapply armed_inv, drag_arms, Hinv.
  - destruct Hinv as (Hs & Hone). simpl. rewrite reset_begin_spec.
    split; [ destruct_sys s; exact Hs | ].
    intros j tm Hj Hp. specialize (Hone j tm Hj Hp). destruct_sys s. exact Hone.
  - destruct Hinv as (Hs & Hone). simpl.
    destruct (elapse_frame d s) as (Hu & Ht).
    apply same_but_cancel in Hu. destruct Hu as (_ & _ & _ & Hti & Hsi).
    split; [ congruence | ].
    intros j tm Hj Hp. rewrite Hti. apply (Hone j tm); [ apply Ht | ]; assumption.
  - destruct Hinv as (Hs & Hone). simpl.
    destruct (finish_frame pid o e s) as (Hu & Ht).
    split; [ rewrite Hu; exact Hs | ].
    intros j tm Hj Hp. rewrite Hu. rewrite Ht in Hj. exact (Hone j tm Hj Hp).
  - destruct Hinv as (Hs & Hone). simpl.
    destruct (mainq s) as [| [msg | msg] q] eqn:Hq.
    + split; assumption.
    + split; [ destruct_sys s; exact Hs | ].
      intros j tm Hj Hp. specialize (Hone j tm). destruct_sys s. exact (Hone Hj Hp).
    + unfold run_main. rewrite reset_done_spec.
      split; [ reflexivity | ].
      intros j tm Hj Hp. specialize (Hone j tm). destruct_sys s. exact (Hone Hj Hp).
Qed.

Lemma set_value_result_range (ls : LabeledSlider) (v : float) :
  Min (set_value_result ls v) = Min ls /\ Max (set_value_result ls v) = Max ls.
Proof. unfold set_value_result. destruct (PrimFloat.eqb _ _); split; reflexivity. Qed.

Lemma step_ranges_ok (s : Sys) (ev : Event) : ranges_ok (u s) -> ranges_ok (u (step s ev)).
Proof.
  intros Hr.
  destruct (is_slow ev) eqn:Hslow.
  { destruct (slow_step_frame s ev Hslow) as (Hu & _).
    apply same_but_cancel in Hu. destruct Hu as (H1 & H2 & H3 & _).
    unfold ranges_ok. rewrite H1, H2, H3. exact Hr. }
  destruct ev as [w v | | d | pid o e | | | d | k ]; try discriminate Hslow.
  - rewrite Dragged_spec. unfold onChange.
    destruct (silence _); [ | rewrite scheduleApply_spec ];
      destruct_sys s; destruct w; exact Hr.
  - destruct_sys s. exact Hr.
  - change (step s (Elapse d)) with (elapse d s).
    destruct (elapse_frame d s) as (Hu & _).
    apply same_but_cancel in Hu. destruct Hu as (H1 & H2 & H3 & _).
    unfold ranges_ok. rewrite H1, H2, H3. exact Hr.
  - change (step s (Exited pid o e)) with (finish pid o e s).
    destruct (finish_frame pid o e s) as (Hu & _). rewrite Hu. exact Hr.
  - unfold step. destruct (mainq s) as [| [msg | msg] q].
    + exact Hr.
    + destruct_sys s. exact Hr.
    + unfold run_main. rewrite reset_done_spec.
      destruct_sys s. unfold ranges_ok in *. cbn [u tempK brightness gamma with_mainq] in *.
      rewrite !(proj1 (set_value_result_range _ _)), !(proj2 (set_value_result_range _ _)).
      exact Hr.
Qed.

Lemma run_snoc (s : Sys) (evs : list Event) (ev : Event) :
  run s (evs ++ [ev]) = step (run s evs) ev.
Proof. unfold run. rewrite foldl_app. reflexivity. Qed.

Lemma reachable_inv (s : Sys) : reachable s -> inv s /\ ranges_ok (u s).
Proof.
  intros (lp & evs & ->). induction evs as [| ev evs IH] using rev_ind.
  - split; [ apply inv_main_init | ]. destruct lp; repeat split.
  - rewrite run_snoc. destruct IH as (Hi & Hr). split.
    + apply step_inv, Hi.
    + apply step_ranges_ok, Hr.
Qed.

(** ** [reset], from the tap to the status text *)

Lemma MainLoop_pops (c : MainCall) (q : list MainCall) (s : Sys) :
  mainq s = c :: q ->
  mainq (step s MainLoop) = q /\ timers (step s MainLoop) = timers s
  /\ procs (step s MainLoop) = procs s.
Proof.
  intros H. unfold step. rewrite H. destruct c as [msg | msg]; unfold run_main.
  - destruct_sys s. repeat split.
  - rewrite reset_done_spec. destruct_sys s. repeat split.
Qed.

Lemma MainLoop_drains (q rest : list MainCall) (s : Sys) :
  mainq s = q ++ rest -> ranges_ok (u s) ->
  mainq (run s (repeat MainLoop (length q))) = rest
  /\ ranges_ok (u (run s (repeat MainLoop (length q))))
  /\ timers (run s (repeat MainLoop (length q))) = timers s
  /\ procs (run s (repeat MainLoop (length q))) = procs s.
Proof.
  revert s. induction q as [| c q IH]; intros s Hq Hr.
  - split; [ exact Hq | ]. split; [ exact Hr | ]. split; reflexivity.
  - cbn [length repeat].
    change (run s (MainLoop :: repeat MainLoop (length q)))
      with (run (step s MainLoop) (repeat MainLoop (length q))).
    destruct (MainLoop_pops c (q ++ rest) s Hq) as (H1 & H2 & H3).
    destruct (IH (step s MainLoop) H1 (step_ranges_ok s MainLoop Hr)) as (A & B & C & D).
    rewrite <- H2, <- H3.
    split; [ exact A | ]. split; [ exact B | ]. split; [ exact C | exact D ].
Qed.

(** The UI thread runs the closure of a [reset]. *)
Lemma ResetDone_runs (msg : string) (q : list MainCall) (s : Sys) :
  ranges_ok (u s) -> mainq s = ResetDone msg :: q ->
  restored msg (u (step s MainLoop)) /\ mainq (step s MainLoop) = q
  /\ timers (step s MainLoop) = timers s /\ procs (step s MainLoop) = procs s.
Proof.
  intros Hr Hq. destruct (restored_values (u s) Hr) as (Ht & Hb & Hg).
  unfold step. rewrite Hq. unfold run_main. rewrite reset_done_spec.
  destruct_sys s. cbn in *. repeat split; assumption.
Qed.

(** A [reset] from its first statement: the command returns, the UI
    thread works off what was queued before and then runs the closure. *)
Lemma reset_begin_cycle (s : Sys) (outBytes : string) (err : option string) :
  ranges_ok (u s) ->
  mainq (run (reset_begin s) [Exited (length (procs s)) outBytes err]) =
    mainq s ++ [ResetDone (reset_msg err outBytes)]
  /\ restored (reset_msg err outBytes)
       (u (run (reset_begin s)
             (Exited (length (procs s)) outBytes err ::
              repeat MainLoop (S (length (mainq s))))))
  /\ timers (run (reset_begin s)
               (Exited (length (procs s)) outBytes err ::
                repeat MainLoop (S (length (mainq s))))) = timers s.
Proof.
  intros Hr.
  set (s2 := finish (length (procs s)) outBytes err (reset_begin s)).
  assert (Hq2 : mainq s2 = mainq s ++ [ResetDone (reset_msg err outBytes)]).
  { unfold s2.
    rewrite (finish_mainq _ _ _ _
               (mkProc ["redshift"; "-x"] ByReset (now s + timeout) NoErr true)).
    - rewrite reset_begin_spec. reflexivity.
    - rewrite reset_begin_spec. apply lookup_new_proc.
    - reflexivity. }
  assert (Hr2 : ranges_ok (u s2)).
  { exact (step_ranges_ok (step s ResetTapped) (Exited (length (procs s)) outBytes err)
             (step_ranges_ok s ResetTapped Hr)). }
  assert (Ht2 : timers s2 = timers s).
  { unfold s2. rewrite (proj2 (finish_frame _ _ _ _)), reset_begin_spec. reflexivity. }
  split; [ exact Hq2 | ].
  change (run (reset_begin s)
            (Exited (length (procs s)) outBytes err :: repeat MainLoop (S (length (mainq s)))))
    with (run s2 (repeat MainLoop (S (length (mainq s))))).
  change (S (length (mainq s))) with (1 + length (mainq s))%nat.
  rewrite Nat.add_comm, repeat_app. cbn [repeat]. rewrite run_snoc.
  destruct (MainLoop_drains (mainq s) [ResetDone (reset_msg err outBytes)] s2 Hq2 Hr2)
    as (A & B & C & _).
  destruct (ResetDone_runs _ [] _ B A) as (R & _ & T & _).
  split; [ exact R | congruence ].
Qed.

(** C6, as stated, fails: the text that [reset] publishes on success
    ends in a full stop, so it is not the text "Reset to defaults". *)
Lemma reset_success_text_has_full_stop :
  out (u (run (main_init (Some "/usr/bin/redshift")) [ResetTapped; Exited 0 "" None; MainLoop]))
  <> "Reset to defaults".
Proof. intros H. vm_compute in H. discriminate H. Qed.

(** C6 (amended): every [reset], whatever the sliders show and whether
    the command succeeds or fails, ends by queueing one closure behind
    what is already queued for the UI thread.  That closure sets the
    flag, writes 6500, 1.00 and 1.00 to the temperature, brightness and
    gamma sliders, clears the flag and then sets the status text; once
    the UI thread has run it the sliders show the defaults, the flag is
    clear, no timer has been touched and the status text is
    "Reset to defaults." (with the full stop) when the command returned
    no error; otherwise "reset error: " followed by the trimmed output
    of the command, or by the error's description when that output is
    empty.  The same holds of a [reset] whose goroutine runs later than
    the tap. *)
Theorem reset_restores_defaults (s : Sys) (outBytes : string) (err : option string) :
  ranges_ok (u s) ->
  mainq (run s [ResetTapped; Exited (length (procs s)) outBytes err]) =
    mainq s ++ [ResetDone (reset_msg err outBytes)]
  /\ (forall msg s',
        run_main (ResetDone msg) s' =
          with_u (with_out msg)
            (with_u (with_silence false)
               (SetValue PGamma 1 (SetValue PBright 1 (SetValue PTemp 6500
                  (with_u (with_silence true) s'))))))
  /\ (forall msg q s',
        ranges_ok (u s') -> mainq s' = ResetDone msg :: q ->
        restored msg (u (step s' MainLoop)) /\ mainq (step s' MainLoop) = q)
  /\ restored (reset_msg err outBytes)
       (u (run s (ResetTapped :: Exited (length (procs s)) outBytes err ::
                  repeat MainLoop (S (length (mainq s))))))
  /\ timers (run s (ResetTapped :: Exited (length (procs s)) outBytes err ::
                    repeat MainLoop (S (length (mainq s))))) = timers s
  /\ (forall k, ready s !! k = Some ResetCall ->
        restored (reset_msg err outBytes)
          (u (run s (GoRun k :: Exited (length (procs s)) outBytes err ::
                     repeat MainLoop (S (length (mainq s)))))))
  /\ (err = None -> reset_msg err outBytes = "Reset to defaults.")
  /\ (forall d, err = Some d -> TrimSpace outBytes = "" ->
        reset_msg err outBytes = "reset error: " +:+ d)
  /\ (forall d, err = Some d -> TrimSpace outBytes <> "" ->
        reset_msg err outBytes = "reset error: " +:+ TrimSpace outBytes).
Proof.
  intros Hr.
  destruct (reset_begin_cycle s outBytes err Hr) as (Hq & Hd & Ht).
  split; [ exact Hq | ].
  split; [ reflexivity | ].
  split.
  { intros msg q s' Hr' Hq'. destruct (ResetDone_runs msg q s' Hr' Hq') as (A & B & _).
    split; assumption. }
  split; [ exact Hd | ].
  split; [ exact Ht | ].
  split; [ | apply reset_msg_cases ].
  intros k Hk.
  assert (E : step s (GoRun k) = reset_begin (with_ready (delete k) s)).
  { unfold step. rewrite Hk. reflexivity. }
  change (run s (GoRun k :: Exited (length (procs s)) outBytes err ::
                 repeat MainLoop (S (length (mainq s)))))
    with (run (step s (GoRun k))
            (Exited (length (procs s)) outBytes err ::
             repeat MainLoop (S (length (mainq s))))).
  rewrite E.
  assert (Hr' : ranges_ok (u (with_ready (delete k) s))) by (destruct_sys s; exact Hr).
  destruct (reset_begin_cycle (with_ready (delete k) s) outBytes err Hr') as (_ & Hd' & _).
  replace (procs (with_ready (delete k) s)) with (procs s) in Hd'
    by (destruct_sys s; reflexivity).
  replace (mainq (with_ready (delete k) s)) with (mainq s) in Hd'
    by (destruct_sys s; reflexivity).
  exact Hd'.
Qed.

Lemma reset_restores_defaults_witness :
  restored "reset error: exit status 1"
    (u (run (run (main_init (Some "/usr/bin/redshift"))
               [Dragged PTemp 3000; Elapse debounce; Exited 0 "" None; Dragged PGamma 0.75])
          [ResetTapped; Exited 1 " " (Some "exit status 1"); MainLoop; MainLoop])).
Proof.
  refine (proj1 (proj2 (proj2 (proj2
            (reset_restores_defaults
               (run (main_init (Some "/usr/bin/redshift"))
                  [Dragged PTemp 3000; Elapse debounce; Exited 0 "" None; Dragged PGamma 0.75])
               " " (Some "exit status 1") _))))).
  repeat split.
Defined.

(** ** Without [reset], one command at a time *)

Lemma filter_imap_none {A B} (P : B -> bool) (f : nat -> A -> B) (l : list A) :
  (forall j x, l !! j = Some x -> P (f j x) = false) ->
  List.filter P (imap f l) = [].
Proof.
  revert f. induction l as [| x l IH]; intros f H; simpl; [ reflexivity | ].
  rewrite (H 0%nat x eq_refl). apply IH. intros j y Hj. apply (H (S j) y Hj).
Qed.

Lemma filter_imap_single {A B} (P : B -> bool) (f : nat -> A -> B) (l : list A) (i : nat) :
  (forall j x, l !! j = Some x -> P (f j x) = true -> j = i) ->
  List.filter P (imap f l) =
    match l !! i with
    | Some x => if P (f i x) then [f i x] else []
    | None => []
    end.
Proof.
  revert f i. induction l as [| x l IH]; intros f i H; simpl.
  - destruct i; reflexivity.
  - destruct i as [| i].
    + simpl. rewrite (filter_imap_none P (f ∘ S) l).
      * reflexivity.
      * intros j y Hj. destruct (P ((f ∘ S) j y)) eqn:E; [ | reflexivity ].
        specialize (H (S j) y Hj E). discriminate H.
    + destruct (P (f 0%nat x)) eqn:E.
      * specialize (H 0%nat x eq_refl E). discriminate H.
      * apply (IH (f ∘ S) i). intros j y Hj Hy.
        specialize (H (S j) y Hj Hy). injection H as ->. reflexivity.
Qed.

Lemma due_timers_one_pending (t : Z) (s : Sys) :
  one_pending s ->
  due_timers t s = [] \/
  exists i tm, due_timers t s = [(i, tm)] /\ timers s !! i = Some tm /\ pending tm = true.
Proof.
  intros Hone. unfold due_timers.
  destruct (timer (u s)) as [i |] eqn:Hi.
  - rewrite (filter_imap_single (due t) pair (timers s) i).
    + destruct (timers s !! i) as [tm |] eqn:Htm; [ | left; reflexivity ].
      destruct (due t (i, tm)) eqn:Hd; [ right | left; reflexivity ].
      exists i, tm. repeat split; [ exact Htm | ].
      unfold due in Hd. simpl in Hd. destruct (pending tm); [ reflexivity | discriminate Hd ].
    + intros j x Hj Hd. unfold due in Hd. simpl in Hd.
      destruct (pending x) eqn:Hp; [ | discriminate Hd ].
      specialize (Hone j x Hj Hp). congruence.
  - left. apply filter_imap_none. intros j x Hj. unfold due. simpl.
    destruct (pending x) eqn:Hp; [ | reflexivity ].
    specialize (Hone j x Hj Hp). congruence.
Qed.

Lemma in_flight_expire (t : Z) (p : Proc) : in_flight (expire t p) = true -> in_flight p = true.
Proof.
  destruct p as [? ? dl e wt]. unfold expire, in_flight. simpl.
  destruct e; simpl; try (intros H; exact H).
  destruct (dl <=? t); simpl; [ rewrite andb_false_r; discriminate | intros H; exact H ].
Qed.

Lemma in_flight_returned (p : Proc) : in_flight (cancel_ctx (returned p)) = false.
Proof. destruct p as [? ? ? e ?]. destruct e; reflexivity. Qed.

Lemma in_flight_cancelled (p : Proc) : in_flight (cancel_ctx p) = false.
Proof. destruct p as [? ? ? e ?]. destruct e; apply andb_false_r. Qed.

Lemma lookup_map_expire (t : Z) (l : list Proc) (i : nat) (p : Proc) :
  map (expire t) l !! i = Some p -> exists q, l !! i = Some q /\ p = expire t q.
Proof.
  intros H. change (map (expire t) l) with (expire t <$> l) in H.
  rewrite list_lookup_fmap in H. destruct (l !! i) as [q |]; [ | discriminate H ].
  injection H as <-. exists q. split; reflexivity.
Qed.

Lemma step_slot_owns_flight (s : Sys) (ev : Event) :
  is_prompt ev = true -> inv s -> slot_owns_flight s -> slot_owns_flight (step s ev).
Proof.
  intros Hev Hinv (Hslot & Hquiet).
  assert (Hnone : forall s', (forall i p, procs s' !! i = Some p -> in_flight p = false) ->
                             slot_owns_flight s').
  { intros s' H. split.
    - intros i p Hi Hp. rewrite (H i p Hi) in Hp. discriminate Hp.
    - intros _ _ _ _. exact H. }
  destruct ev as [w v | | d | pid o e | | | d | k ]; try discriminate Hev.
  - (* a change: the slot's command is cancelled, the slot emptied *)
    apply Hnone. intros i p Hi.
    rewrite Dragged_spec, onChange_live, scheduleApply_spec in Hi.
    2: { destruct Hinv as (Hs & _). destruct_sys s. destruct w; exact Hs. }
    assert (Hi' : match cancel (u s) with
                  | Some c => alter cancel_ctx c (procs s)
                  | None => procs s
                  end !! i = Some p).
    { destruct_sys s. destruct w; exact Hi. }
    clear Hi. destruct (in_flight p) eqn:Hp; [ exfalso | reflexivity ].
    destruct (cancel (u s)) as [c |] eqn:Hc.
    + destruct (decide (c = i)) as [-> | Hne].
      * rewrite list_lookup_alter_eq in Hi'.
        destruct (procs s !! i); simpl in Hi'; [ | discriminate Hi' ].
        injection Hi' as <-. rewrite in_flight_cancelled in Hp. discriminate Hp.
      * rewrite list_lookup_alter_ne in Hi' by exact Hne.
        specialize (Hslot i p Hi' Hp). congruence.
    + specialize (Hslot i p Hi' Hp). congruence.
  - (* time passes *)
    destruct Hinv as (_ & Hone).
    change (step s (Elapse d)) with (elapse d s). unfold elapse.
    destruct (d <? 0); [ split; assumption | ].
    destruct (due_timers_one_pending (now s + d) s Hone) as [-> | (i0 & tm0 & -> & Htm & Hpe)].
    + simpl. split.
      * intros i p Hi Hp. destruct_sys s. simpl in *.
        apply lookup_map_expire in Hi. destruct Hi as (q & Hq & ->).
        apply (Hslot i q Hq). eapply in_flight_expire, Hp.
      * intros j tm Hj Htp i p Hi. destruct_sys s. simpl in *.
        apply lookup_map_expire in Hi. destruct Hi as (q & Hq & ->).
        specialize (Hquiet j tm Hj Htp i q Hq).
        destruct (in_flight (expire _ q)) eqn:E; [ | reflexivity ].
        apply in_flight_expire in E. congruence.
    + simpl. rewrite fire_spec. split.
      * intros i p Hi Hp. destruct_sys s. simpl in *.
        apply lookup_map_expire in Hi. destruct Hi as (q & Hq & ->).
        apply in_flight_expire in Hp. apply lookup_snoc_Some in Hq.
        destruct Hq as [(_ & Hq) | (-> & _)]; [ | reflexivity ].
        rewrite (Hquiet i0 tm0 Htm Hpe i q Hq) in Hp. discriminate Hp.
      * intros j tm Hj Htp. exfalso. destruct_sys s. simpl in *.
        destruct (decide (i0 = j)) as [-> | Hne].
        -- rewrite list_lookup_alter_eq, Htm in Hj. simpl in Hj.
           injection Hj as <-. discriminate Htp.
        -- rewrite list_lookup_alter_ne in Hj by exact Hne.
           pose proof (Hone j tm Hj Htp) as H1. pose proof (Hone i0 tm0 Htm Hpe) as H2.
           simpl in H1, H2. congruence.
  - (* a command returns *)
    change (step s (Exited pid o e)) with (finish pid o e s). unfold finish.
    destruct (procs s !! pid) as [p0 |] eqn:Hp0; [ | split; assumption ].
    destruct (waiting p0); [ | split; assumption ].
    assert (Hless : forall i p,
              alter (fun p => cancel_ctx (returned p)) pid (procs s) !! i = Some p ->
              in_flight p = true -> procs s !! i = Some p).
    { intros i p Hi Hp. destruct (decide (pid = i)) as [-> | Hne].
      - rewrite list_lookup_alter_eq, Hp0 in Hi. simpl in Hi. injection Hi as <-.
        rewrite in_flight_returned in Hp. discriminate Hp.
      - rewrite list_lookup_alter_ne in Hi by exact Hne. exact Hi. }
    split.
    + intros i p Hi Hp. destruct_sys s. simpl in *. eauto.
    + intros j tm Hj Htp i p Hi. destruct_sys s. simpl in *.
      destruct (in_flight p) eqn:E; [ | reflexivity ].
      rewrite <- E. eapply Hquiet; eauto.
  - (* the UI thread runs a queued call *)
    unfold step. destruct (mainq s) as [| [msg | msg] q]; [ split; assumption | | ].
    + destruct_sys s. split; assumption.
    + unfold run_main. rewrite reset_done_spec. destruct_sys s. split; assumption.
Qed.

Lemma filter_none_at {A} (P : A -> bool) (l : list A) :
  (forall i x, l !! i = Some x -> P x = false) -> List.filter P l = [].
Proof.
  induction l as [| x l IH]; intros H; simpl; [ reflexivity | ].
  rewrite (H 0%nat x eq_refl). apply IH. intros i y Hi. apply (H (S i) y Hi).
Qed.

Lemma filter_at_most_one {A} (P : A -> bool) (l : list A) (c : nat) :
  (forall i x, l !! i = Some x -> P x = true -> i = c) ->
  (length (List.filter P l) <= 1)%nat.
Proof.
  revert c. induction l as [| x l IH]; intros c H; simpl; [ lia | ].
  destruct (P x) eqn:E.
  - rewrite (filter_none_at P l); [ simpl; lia | ].
    intros i y Hi. destruct (P y) eqn:Ey; [ | reflexivity ].
    pose proof (H 0%nat x eq_refl E) as H0. pose proof (H (S i) y Hi Ey) as H1. lia.
  - apply (IH (Nat.pred c)). intros i y Hi Ey. pose proof (H (S i) y Hi Ey). lia.
Qed.

Lemma prompt_invariants (lookPath : option string) (evs : list Event) :
  Forall (fun ev => is_prompt ev = true) evs ->
  inv (run (main_init lookPath) evs) /\ slot_owns_flight (run (main_init lookPath) evs).
Proof.
  intros Hevs. induction evs as [| ev evs IH] using rev_ind.
  - split; [ apply inv_main_init | ].
    split; [ intros k r Hk | intros k tm Hk ]; destruct lookPath; discriminate Hk.
  - apply Forall_app in Hevs. destruct Hevs as (Hevs & Hev).
    apply Forall_cons_1 in Hev. destruct Hev as (Hev & _).
    destruct (IH Hevs) as (Hi & Hs). rewrite run_snoc. split.
    + apply step_inv, Hi.
    + apply step_slot_owns_flight; assumption.
Qed.

(** X16: in a run without the button in which every [apply] goroutine
    runs the moment its timer fires (no event is handled between the
    firing and the goroutine storing its cancel function), at most one
    command is in flight. *)
Theorem apply_only_one_in_flight (lookPath : option string) (evs : list Event) :
  Forall (fun ev => is_prompt ev = true) evs ->
  (length (List.filter in_flight (procs (run (main_init lookPath) evs))) <= 1)%nat.
Proof.
  intros Hevs. destruct (prompt_invariants lookPath evs Hevs) as (_ & Hslot & _).
  destruct (cancel (u (run (main_init lookPath) evs))) as [c |] eqn:Hc.
  - apply (filter_at_most_one in_flight _ c). intros i p Hi Hp.
    specialize (Hslot i p Hi Hp). congruence.
  - rewrite filter_none_at; [ simpl; lia | ].
    intros i p Hi. destruct (in_flight p) eqn:Hp; [ | reflexivity ].
    specialize (Hslot i p Hi Hp). congruence.
Qed.

Lemma apply_only_one_in_flight_witness :
  (length (List.filter in_flight
             (procs (run (main_init None)
                       [Dragged PTemp 3000; Elapse debounce; Dragged PTemp 3100;
                        Elapse debounce]))) <= 1)%nat.
Proof.
  apply (apply_only_one_in_flight None
           [Dragged PTemp 3000; Elapse debounce; Dragged PTemp 3100; Elapse debounce]).
  repeat constructor.
Defined.

(** Without that promptness the bound fails, also without the button:
    the first timer fires, a second change is handled before the
    goroutine of the first has stored its cancel function (nothing is
    cancelled, and the fired timer cannot be stopped), and both [apply]
    commands end up in flight. *)
Example late_goroutine_two_in_flight :
  map (fun p => (caller p, in_flight p))
    (procs (run (main_init None)
              [Dragged PTemp 4500; ElapseSlow debounce; Dragged PTemp 4600; GoRun 0;
               Elapse debounce]))
  = [(ByApply, true); (ByApply, true)].
Proof. reflexivity. Qed.

(** * Further properties of the controller and the widget *)

(** ** The status message is never blank *)

(** X1: whatever the context, the error and the output are, [apply] and
    [reset] publish a non-empty status text. *)
Theorem status_msg_never_empty (e : CtxErr) (err : option string) (outBytes : string) :
  apply_msg e err outBytes <> "" /\ reset_msg err outBytes <> "".
Proof.
  unfold apply_msg, reset_msg. split.
  - destruct (is_deadline e); [ discriminate | ].
    destruct err as [d |]; destruct (String.eqb (TrimSpace outBytes) "") eqn:E;
      try discriminate.
    apply String.eqb_neq. exact E.
  - destruct err as [d |]; [ | discriminate ].
    destruct (String.eqb (TrimSpace outBytes) ""); discriminate.
Qed.

(** ** [LabeledSlider.SetValue] *)

Lemma SetValue_slider (w : Param) (v : float) (s : Sys) :
  slider w (u (SetValue w v s)) = set_value_result (slider w (u s)) v
  /\ (forall w', w' <> w -> slider w' (u (SetValue w v s)) = slider w' (u s)).
Proof.
  unfold SetValue, Slider_SetValue, set_value_result.
  destruct (PrimFloat.eqb (Value (slider w (u s))) v).
  - split; [ destruct_sys s; destruct w; reflexivity | ].
    intros w' Hw. destruct_sys s. destruct w, w'; try reflexivity; contradiction.
  - destruct (PrimFloat.eqb (Value (slider w (u s))) (clamp (slider w (u s)) v)).
    { split; [ destruct_sys s; destruct w; reflexivity | ].
      intros w' Hw. destruct_sys s. destruct w, w'; try reflexivity; contradiction. }
    unfold OnChanged, onChange.
    destruct (silence _); [ | rewrite scheduleApply_spec ].
    + split; [ destruct_sys s; destruct w; reflexivity | ].
      intros w' Hw. destruct_sys s. destruct w, w'; try reflexivity; contradiction.
    + split; [ destruct_sys s; destruct w; reflexivity | ].
      intros w' Hw. destruct_sys s. destruct w, w'; try reflexivity; contradiction.
Qed.

(** X2: out of range.  Setting a slider to a number at or above [Max]
    (or at or below [Min]) that differs from the current value stores
    the bound, yet the value label shows the number that was asked
    for. *)
Theorem SetValue_out_of_range (w : Param) (v : float) (s : Sys) :
  PrimFloat.eqb (Value (slider w (u s))) v = false ->
  (PrimFloat.leb (Max (slider w (u s))) v = true ->
     Value (slider w (u (SetValue w v s))) = Max (slider w (u s)))
  /\ (PrimFloat.leb (Max (slider w (u s))) v = false ->
      PrimFloat.leb v (Min (slider w (u s))) = true ->
        Value (slider w (u (SetValue w v s))) = Min (slider w (u s)))
  /\ valueLabel (slider w (u (SetValue w v s))) = formatValue (slider w (u s)) v.
Proof.
  intros Hne. destruct (SetValue_slider w v s) as (Hs & _). rewrite Hs.
  unfold set_value_result, clamp. rewrite Hne. simpl.
  split; [ intros ->; reflexivity | ].
  split; [ intros -> ->; reflexivity | reflexivity ].
Qed.

Lemma SetValue_out_of_range_witness :
  Value (slider PBright (u (SetValue PBright 3 (main_init None)))) = 1%float
  /\ valueLabel (slider PBright (u (SetValue PBright 3 (main_init None)))) = "3.00".
Proof.
  destruct (SetValue_out_of_range PBright 3 (main_init None)) as (Hmax & _ & Hl);
    [ reflexivity | ].
  split; [ apply Hmax; reflexivity | rewrite Hl; reflexivity ].
Defined.

(** ** Restoring the defaults *)

Lemma set_value_result_idem (ls : LabeledSlider) (v : float) :
  Value (set_value_result ls v) = v -> PrimFloat.eqb v v = true ->
  set_value_result (set_value_result ls v) v = set_value_result ls v.
Proof.
  intros Hv He. unfold set_value_result at 1. rewrite Hv, He.
  unfold set_value_result. destruct (PrimFloat.eqb (Value ls) v); reflexivity.
Qed.

(** X4: restoring twice is restoring once.  For sliders with the ranges
    of [main], running [reset]'s closure on a state that the closure has
    already restored changes nothing but the status text; and on a state
    whose sliders show the defaults, with labels that show the values,
    the closure changes the status text only. *)
Theorem reset_done_idempotent (msg msg' : string) (s : Sys) :
  ranges_ok (u s) ->
  reset_done msg' (reset_done msg s) = reset_done msg' s
  /\ (silence (u s) = false -> at_defaults (u s) -> labels_ok (u s) ->
        reset_done msg s = with_u (with_out msg) s).
Proof.
  intros Hr. destruct (restored_values (u s) Hr) as (Ht & Hb & Hg). split.
  - rewrite (reset_done_spec msg' (reset_done msg s)), (reset_done_spec msg s),
      (reset_done_spec msg' s). simpl.
    rewrite !set_value_result_idem by (assumption || reflexivity). reflexivity.
  - intros Hs (Dt & Db & Dg) (Lt & Lb & Lg). rewrite reset_done_spec.
    assert (Hsame : forall ls v, label_shows_value ls -> Value ls = v ->
                                 PrimFloat.eqb v v = true -> set_value_result ls v = ls).
    { intros ls v Hl Hv He. unfold label_shows_value, set_value_result in *.
      rewrite Hv, He. destruct ls as [? ? ? ? val lbl ? ? ? ?]. simpl in *.
      subst val. unfold updateValueLabel. simpl. rewrite <- Hl. reflexivity. }
    rewrite (Hsame _ _ Lt Dt), (Hsame _ _ Lb Db), (Hsame _ _ Lg Dg) by reflexivity.
    destruct_sys s. simpl in *. subst. reflexivity.
Qed.

Lemma reset_done_idempotent_witness :
  reset_done "b" (reset_done "a" (run (main_init None) [Dragged PBright 0.5]))
  = reset_done "b" (run (main_init None) [Dragged PBright 0.5]).
Proof.
  apply (reset_done_idempotent "a" "b" (run (main_init None) [Dragged PBright 0.5])).
  repeat split.
Defined.

(** ** What an event may change *)

Lemma same_but_cancel_out (us us' : uiState) :
  with_cancel None us' = with_cancel None us -> out us' = out us.
Proof.
  destruct us, us'. unfold with_cancel. simpl. intros H. injection H as -> -> -> -> -> ->.
  reflexivity.
Qed.

Lemma step_sliders (s : Sys) (ev : Event) (w : Param) :
  slider w (u (step s ev)) =
    match ev with
    | Dragged w' v => slider w (moved w' v (u s))
    | MainLoop =>
        match mainq s with
        | ResetDone _ :: _ =>
            set_value_result (slider w (u s))
              (match w with PTemp => 6500 | PBright => 1 | PGamma => 1 end)
        | _ => slider w (u s)
        end
    | _ => slider w (u s)
    end.
Proof.
  destruct (is_slow ev) eqn:Hslow.
  { destruct (slow_step_frame s ev Hslow) as (Hu & _).
    apply same_but_cancel in Hu. destruct Hu as (H1 & H2 & H3 & _).
    destruct ev; try discriminate Hslow; destruct w; simpl; assumption. }
  destruct ev as [w' v | | d | pid o e | | | d | k ]; try discriminate Hslow.
  - rewrite Dragged_spec. unfold onChange.
    destruct (silence _); [ | rewrite scheduleApply_spec ];
      destruct_sys s; destruct w, w'; reflexivity.
  - destruct_sys s. destruct w; reflexivity.
  - change (step s (Elapse d)) with (elapse d s).
    destruct (elapse_frame d s) as (Hu & _).
    apply same_but_cancel in Hu. destruct Hu as (H1 & H2 & H3 & _).
    destruct w; simpl; assumption.
  - change (step s (Exited pid o e)) with (finish pid o e s).
    destruct (finish_frame pid o e s) as (Hu & _). rewrite Hu. reflexivity.
  - unfold step. destruct (mainq s) as [| [msg | msg] q]; [ reflexivity | | ].
    + destruct_sys s. destruct w; reflexivity.
    + unfold run_main. rewrite reset_done_spec. destruct_sys s. destruct w; reflexivity.
Qed.

(** X5: the status label is written by the UI thread only.  No event
    other than the UI thread running a queued call changes the status
    text (a change, a tap on the button, the passing of time, a command
    returning all leave it), and such a call sets it to the message that
    [apply] or [reset] queued. *)
Theorem status_written_by_main_loop_only (s : Sys) (ev : Event) :
  (is_mainloop ev = false -> out (u (step s ev)) = out (u s))
  /\ (forall msg q, mainq s = SetText msg :: q -> out (u (step s MainLoop)) = msg)
  /\ (forall msg q, mainq s = ResetDone msg :: q -> out (u (step s MainLoop)) = msg)
  /\ (mainq s = [] -> step s MainLoop = s).
Proof.
  split; [ | split; [ | split ] ].
  - intros Hev. destruct (is_slow ev) eqn:Hslow.
    { destruct (slow_step_frame s ev Hslow) as (Hu & _). apply same_but_cancel_out, Hu. }
    destruct ev as [w v | | d | pid o e | | | d | k ];
      try discriminate Hslow; try discriminate Hev.
    + rewrite Dragged_spec. unfold onChange.
      destruct (silence _); [ | rewrite scheduleApply_spec ];
        destruct_sys s; destruct w; reflexivity.
    + destruct_sys s. reflexivity.
    + change (step s (Elapse d)) with (elapse d s).
      destruct (elapse_frame d s) as (Hu & _). apply same_but_cancel_out, Hu.
    + change (step s (Exited pid o e)) with (finish pid o e s).
      destruct (finish_frame pid o e s) as (Hu & _). rewrite Hu. reflexivity.
  - intros msg q Hq. unfold step. rewrite Hq. destruct_sys s. reflexivity.
  - intros msg q Hq. unfold step. rewrite Hq. unfold run_main.
    rewrite reset_done_spec. reflexivity.
  - intros Hq. unfold step. rewrite Hq. reflexivity.
Qed.

(** ** The labels follow the values *)

Lemma moved_label (w : Param) (v : float) (us : uiState) (w' : Param) :
  label_shows_value (slider w' us) -> label_shows_value (slider w' (moved w v us)).
Proof.
  unfold label_shows_value. destruct us as [[] [] [] ? ? ? ?].
  destruct w, w'; simpl; intros H; try exact H; reflexivity.
Qed.

Lemma set_value_result_label (ls : LabeledSlider) (v : float) :
  Value (set_value_result ls v) = v -> label_shows_value (set_value_result ls v).
Proof.
  unfold label_shows_value. intros ->. unfold set_value_result.
  destruct (PrimFloat.eqb _ _); destruct ls; reflexivity.
Qed.

Lemma step_labels_ok (s : Sys) (ev : Event) :
  ranges_ok (u s) -> labels_ok (u s) -> labels_ok (u (step s ev)).
Proof.
  intros Hr (Lt & Lb & Lg).
  assert (H : forall w, label_shows_value (slider w (u (step s ev)))).
  { intros w. rewrite step_sliders.
    assert (Hw : label_shows_value (slider w (u s))) by (destruct w; assumption).
    destruct ev as [w' v | | d | pid o e | | | d | k ]; try exact Hw.
    - apply moved_label, Hw.
    - destruct (mainq s) as [| [msg | msg] q]; try exact Hw.
      apply set_value_result_label.
      destruct (restored_values (u s) Hr) as (Ht & Hb & Hg). destruct w; assumption. }
  split; [ exact (H PTemp) | split; [ exact (H PBright) | exact (H PGamma) ] ].
Qed.

Lemma step_formats_ok (s : Sys) (ev : Event) : formats_ok (u s) -> formats_ok (u (step s ev)).
Proof.
  intros Hf.
  assert (H : forall w, format (slider w (u (step s ev))) = format (slider w (u s))
                        /\ unit (slider w (u (step s ev))) = unit (slider w (u s))).
  { intros w. rewrite step_sliders.
    destruct ev as [w' v | | d | pid o e | | | d | k ]; try (split; reflexivity).
    - destruct (u s) as [[] [] [] ? ? ? ?]. destruct w, w'; split; reflexivity.
    - destruct (mainq s) as [| [msg | msg] q]; try (split; reflexivity).
      unfold set_value_result. destruct (PrimFloat.eqb _ _); split; reflexivity. }
  destruct Hf as (F1 & F2 & F3 & F4 & F5 & F6).
  destruct (H PTemp) as (A1 & A2), (H PBright) as (B1 & B2), (H PGamma) as (G1 & G2).
  simpl in *. unfold formats_ok. rewrite A1, A2, B1, B2, G1, G2. repeat split; assumption.
Qed.

Lemma reachable_widgets (s : Sys) : reachable s -> labels_ok (u s) /\ formats_ok (u s).
Proof.
  intros (lp & evs & ->). induction evs as [| ev evs IH] using rev_ind.
  - destruct lp; repeat split.
  - rewrite run_snoc. destruct IH as (Hl & Hf). split.
    + apply step_labels_ok; [ | exact Hl ].
      apply (reachable_inv (run (main_init lp) evs)). exists lp, evs. reflexivity.
    + apply step_formats_ok, Hf.
Qed.

(** X6: in every state that the program can reach, each slider's value
    label shows the formatted value of the slider. *)
Theorem labels_follow_values (s : Sys) :
  reachable s ->
  valueLabel (tempK (u s)) = Sprintf_f 0 (Value (tempK (u s))) +:+ " K"
  /\ valueLabel (brightness (u s)) = Sprintf_f 2 (Value (brightness (u s)))
  /\ valueLabel (gamma (u s)) = Sprintf_f 2 (Value (gamma (u s))).
Proof.
  intros H. destruct (reachable_widgets s H) as ((Lt & Lb & Lg) & F1 & F2 & F3 & F4 & F5 & F6).
  unfold label_shows_value, formatValue in *.
  rewrite Lt, Lb, Lg, F1, F2, F3, F4, F5, F6. repeat split.
Qed.

Lemma labels_follow_values_witness :
  valueLabel (brightness (u (run (main_init None)
                               [Dragged PBright 0.5; ResetTapped; Dragged PGamma 2]))) =
  Sprintf_f 2 (Value (brightness (u (run (main_init None)
                                        [Dragged PBright 0.5; ResetTapped; Dragged PGamma 2])))).
Proof.
  apply (labels_follow_values
           (run (main_init None) [Dragged PBright 0.5; ResetTapped; Dragged PGamma 2])).
  exists None, [Dragged PBright 0.5; ResetTapped; Dragged PGamma 2]. reflexivity.
Defined.

(** ** Deadlines and delays *)

Lemma foldl_fire_log (its : list (nat * Timer)) (s : Sys) :
  mainq (foldl (fun acc it => fire (fst it) (snd it) acc) s its) = mainq s
  /\ now (foldl (fun acc it => fire (fst it) (snd it) acc) s its) = now s
  /\ exists ext, procs (foldl (fun acc it => fire (fst it) (snd it) acc) s its)
                 = procs s ++ ext.
Proof.
  revert s. induction its as [| [i tm] its IH]; intros s; simpl.
  - repeat split. exists []. rewrite app_nil_r. reflexivity.
  - destruct (IH (fire i tm s)) as (Hq & Hn & ext & Hp).
    rewrite Hq, Hn, Hp, fire_spec. simpl. repeat split.
    eexists. rewrite <- app_assoc. reflexivity.
Qed.

Lemma elapse_lookup (d : Z) (s : Sys) (pid : nat) (p : Proc) :
  0 <= d -> procs s !! pid = Some p ->
  procs (elapse d s) !! pid = Some (expire (now s + d) p)
  /\ mainq (elapse d s) = mainq s.
Proof.
  intros Hd Hp. unfold elapse. destruct (Z.ltb_spec d 0) as [ | _ ]; [ lia | ].
  destruct (foldl_fire_log (due_timers (now s + d) s) s) as (Hq & _ & ext & He).
  simpl. split; [ | exact Hq ].
  rewrite He. change (map (expire (now s + d)) (procs s ++ ext))
    with (expire (now s + d) <$> (procs s ++ ext)).
  rewrite list_lookup_fmap, lookup_app_l by (eapply lookup_lt_Some; exact Hp).
  rewrite Hp. reflexivity.
Qed.

(** X7: the deadline decides.  An [apply] command that is still running
    when its context's deadline has passed is reported as
    "Timed out applying settings.", whatever output and error it then
    returns; one that returns before the deadline, not cancelled, gets
    the message of its output and error. *)
Theorem apply_deadline_decides (s : Sys) (pid : nat) (p : Proc) (d : Z)
    (outBytes : string) (err : option string) :
  procs s !! pid = Some p -> caller p = ByApply -> waiting p = true ->
  ctxErr p = NoErr -> 0 <= d ->
  (deadline p <= now s + d ->
     mainq (run s [Elapse d; Exited pid outBytes err]) =
       mainq s ++ [SetText "Timed out applying settings."])
  /\ (now s + d < deadline p ->
      mainq (run s [Elapse d; Exited pid outBytes err]) =
        mainq s ++ [SetText (apply_msg NoErr err outBytes)]).
Proof.
  intros Hp Hc Hw He Hd.
  destruct (elapse_lookup d s pid p Hd Hp) as (Hl & Hq).
  change (run s [Elapse d; Exited pid outBytes err])
    with (finish pid outBytes err (elapse d s)).
  assert (Hw' : waiting (expire (now s + d) p) = true).
  { unfold expire. rewrite He. destruct (_ <=? _); exact Hw. }
  rewrite (finish_mainq _ _ _ _ _ Hl Hw'), Hq.
  assert (Hc' : caller (expire (now s + d) p) = ByApply).
  { unfold expire. rewrite He. destruct (_ <=? _); exact Hc. }
  rewrite Hc'. unfold expire. rewrite He. split; intros Ht.
  - destruct (Z.leb_spec (deadline p) (now s + d)) as [ _ | ]; [ | lia ]. reflexivity.
  - destruct (Z.leb_spec (deadline p) (now s + d)) as [ | _ ]; [ lia | ].
    simpl. rewrite He. reflexivity.
Qed.

Lemma apply_deadline_decides_witness :
  mainq (run (run (main_init None) [Dragged PTemp 4500; Elapse debounce])
           [Elapse timeout; Exited 0 "ok" None])
  = [SetText "Timed out applying settings."].
Proof.
  refine (proj1 (apply_deadline_decides
                   (run (main_init None) [Dragged PTemp 4500; Elapse debounce]) 0
                   (mkProc ("redshift" :: apply_args 4500 1 1) ByApply (debounce + timeout)
                      NoErr true)
                   timeout "ok" None _ _ _ _ _) _);
    try reflexivity; discriminate.
Defined.

Lemma Dragged_live_spec (w : Param) (v : float) (s : Sys) :
  silence (u s) = false ->
  step s (Dragged w v) =
    mkSys (with_timer (Some (length (timers s))) (with_cancel None (moved w v (u s))))
      (now s)
      (match timer (u s) with
       | Some i => alter stopped i (timers s)
       | None => timers s
       end ++ [mkTimer (now s + debounce) (snapshot (moved w v (u s))) true])
      (match cancel (u s) with
       | Some c => alter cancel_ctx c (procs s)
       | None => procs s
       end)
      (mainq s) (ready s).
Proof.
  intros Hs. rewrite Dragged_spec, onChange_live, scheduleApply_spec.
  - destruct_sys s. destruct w; reflexivity.
  - destruct_sys s. destruct w; exact Hs.
Qed.

Lemma Dragged_pending_last (w : Param) (v : float) (s : Sys) :
  inv s ->
  pending_last (now s + debounce) (snapshot (moved w v (u s))) (step s (Dragged w v))
  /\ invocations (step s (Dragged w v)) = invocations s
  /\ now (step s (Dragged w v)) = now s
  /\ mainq (step s (Dragged w v)) = mainq s
  /\ length (procs (step s (Dragged w v))) = length (procs s).
Proof.
  intros (Hs & Hone). rewrite (Dragged_live_spec w v s Hs).
  split; [ | split; [ | split; [ | split ] ] ]; try reflexivity.
  - eexists. split; [ reflexivity | ]. split; [ apply stopped_all_idle, Hone | ].
    simpl. destruct (timer (u s)); rewrite ?length_alter; reflexivity.
  - unfold invocations. simpl. destruct (cancel (u s)); [ | reflexivity ].
    apply map_alter_same, cancel_ctx_key.
  - simpl. destruct (cancel (u s)); rewrite ?length_alter; reflexivity.
Qed.

Lemma elapse_pending_last (t0 : Z) (a : Z * float * float) (d : Z) (s : Sys) :
  pending_last t0 a s -> 0 <= d ->
  elapse d s =
    with_now (now s + d)
      (with_procs (map (expire (now s + d)))
         (if t0 <=? now s + d
          then fire (Nat.pred (length (timers s))) (mkTimer t0 a true) s
          else s)).
Proof.
  intros (l & Ht & Hl & Hu) Hd.
  unfold elapse. destruct (Z.ltb_spec d 0) as [ | _ ]; [ lia | ].
  rewrite (due_timers_last _ _ _ _ Ht Hl). unfold due. simpl.
  rewrite Ht, length_app, Nat.add_1_r. simpl.
  destruct (t0 <=? now s + d); reflexivity.
Qed.

Lemma quiet_step_waits (t0 : Z) (a : Z * float * float) (s : Sys) (ev : Event) :
  pending_last t0 a s -> ready s = [] -> is_quiet ev = true -> now s + dur ev < t0 ->
  pending_last t0 a (step s ev) /\ ready (step s ev) = []
  /\ invocations (step s ev) = invocations s
  /\ now (step s ev) = now s + dur ev.
Proof.
  intros Hp Hr Hq Ht.
  destruct ev as [w v | | d | pid o e | | | d | k ]; try discriminate Hq; cbn [dur] in *.
  - change (step s (Elapse d)) with (elapse d s).
    destruct (Z.ltb_spec d 0) as [Hd | Hd].
    + unfold elapse. destruct (Z.ltb_spec d 0) as [ _ | ]; [ | lia ].
      repeat split; try assumption. lia.
    + rewrite (elapse_pending_last t0 a d s Hp Hd).
      destruct (Z.leb_spec t0 (now s + d)) as [ | _ ]; [ lia | ].
      destruct Hp as (l & Hl). destruct_sys s. cbn in *.
      split; [ exists l; exact Hl | ]. split; [ exact Hr | ].
      split; [ apply map_map_same, expire_key | lia ].
  - change (step s (Exited pid o e)) with (finish pid o e s). rewrite Z.add_0_r.
    unfold finish. destruct (procs s !! pid) as [p |]; [ | repeat split; assumption ].
    destruct (waiting p); [ | repeat split; assumption ].
    destruct Hp as (l & Hl). destruct_sys s. cbn in *.
    split; [ exists l; exact Hl | ]. split; [ exact Hr | ]. split; [ | reflexivity ].
    apply map_alter_same. intros x. rewrite cancel_ctx_key. reflexivity.
  - rewrite Z.add_0_r. unfold step.
    destruct (mainq s) as [| [msg | msg] q]; [ repeat split; assumption | | ].
    + destruct Hp as (l & Hl). destruct_sys s. cbn in *.
      split; [ exists l; exact Hl | ]. repeat split. exact Hr.
    + unfold run_main. rewrite reset_done_spec.
      destruct Hp as (l & Hl). destruct_sys s. cbn in *.
      split; [ exists l; exact Hl | ]. repeat split. exact Hr.
  - change (step s (ElapseSlow d)) with (elapse_slow d s). unfold elapse_slow.
    destruct (Z.ltb_spec d 0) as [Hd | Hd]; [ repeat split; try assumption; lia | ].
    destruct Hp as (l & Hl & Hidle & Hu).
    rewrite (due_timers_last _ _ _ _ Hl Hidle). unfold due. cbn [snd when pending andb].
    destruct (Z.leb_spec t0 (now s + d)) as [ | _ ]; [ lia | ].
    destruct_sys s. cbn in *.
    split; [ exists l; repeat split; assumption | ]. split; [ exact Hr | ].
    split; [ apply map_map_same, expire_key | lia ].
  - rewrite Z.add_0_r. unfold step. rewrite Hr. repeat split; assumption.
Qed.

Lemma quiet_run_waits (t0 : Z) (a : Z * float * float) (evs : list Event) (s : Sys) :
  pending_last t0 a s -> ready s = [] ->
  Forall (fun ev => is_quiet ev = true) evs -> now s + elapsed evs < t0 ->
  pending_last t0 a (run s evs) /\ invocations (run s evs) = invocations s.
Proof.
  revert s. induction evs as [| ev evs IH]; intros s Hp Hr Hq Ht.
  - split; [ exact Hp | reflexivity ].
  - apply Forall_cons_1 in Hq. destruct Hq as (Hev & Hq).
    cbn [elapsed foldr] in Ht. fold (elapsed evs) in Ht.
    assert (Hd : 0 <= dur ev) by (destruct ev; cbn [dur]; lia).
    assert (He : 0 <= elapsed evs).
    { clear. induction evs as [| ev evs IH]; cbn [elapsed foldr]; [ lia | ].
      fold (elapsed evs). destruct ev; cbn [dur]; lia. }
    destruct (quiet_step_waits t0 a s ev Hp Hr Hev) as (Hp' & Hr' & Hi' & Hn'); [ lia | ].
    change (run s (ev :: evs)) with (run (step s ev) evs).
    destruct (IH (step s ev) Hp' Hr' Hq) as (Hp2 & Hi2); [ lia | ].
    split; [ exact Hp2 | congruence ].
Qed.

(** X8: never early, and with all three values.  When no goroutine
    spawned earlier is still waiting to run, then after a slider change,
    as long as no slider is changed, the button is not tapped and less
    than [debounce] nanoseconds have passed, no command is started,
    whatever else happens (commands return, the UI thread runs queued
    calls, time passes in any number of steps); the timer that is
    pending meanwhile is due [debounce] after the change and carries the
    new value of the changed slider together with the values the two
    others had. *)
Theorem change_waits_debounce (s : Sys) (w : Param) (v : float) (evs : list Event) :
  inv s -> ready s = [] ->
  Forall (fun ev => is_quiet ev = true) evs -> elapsed evs < debounce ->
  invocations (run s (Dragged w v :: evs)) = invocations s
  /\ pending_last (now s + debounce) (snapshot (moved w v (u s)))
       (run s (Dragged w v :: evs))
  /\ Value (slider w (moved w v (u s))) = v
  /\ (forall w', w' <> w -> slider w' (moved w v (u s)) = slider w' (u s)).
Proof.
  intros Hinv Hr Hq Ht.
  destruct (Dragged_pending_last w v s Hinv) as (Hp & Hi & Hn & _).
  assert (Hr' : ready (step s (Dragged w v)) = []).
  { rewrite (Dragged_live_spec w v s (proj1 Hinv)). exact Hr. }
  change (run s (Dragged w v :: evs)) with (run (step s (Dragged w v)) evs).
  destruct (quiet_run_waits _ _ evs _ Hp Hr' Hq) as (Hp2 & Hi2); [ rewrite Hn; lia | ].
  split; [ congruence | ]. split; [ exact Hp2 | ]. split.
  - destruct (u s) as [[] [] [] ? ? ? ?]. destruct w; reflexivity.
  - intros w' Hw. destruct (u s) as [[] [] [] ? ? ? ?].
    destruct w, w'; try reflexivity; contradiction.
Qed.

Lemma change_waits_debounce_witness :
  invocations
    (run (run (main_init None) [Dragged PTemp 3000; Elapse debounce])
       (Dragged PGamma 2 ::
        [Elapse (100 * Millisecond); Exited 0 "" None; MainLoop; GoRun 0;
         ElapseSlow (149 * Millisecond)]))
  = [(ByApply, "redshift" :: apply_args 3000 1 1)].
Proof.
  refine (proj1 (change_waits_debounce
                   (run (main_init None) [Dragged PTemp 3000; Elapse debounce]) PGamma 2
                   [Elapse (100 * Millisecond); Exited 0 "" None; MainLoop; GoRun 0;
                    ElapseSlow (149 * Millisecond)] _ _ _ _)).
  - split; [ reflexivity | ].
    intros [| [| j]] tm Hj Hp; [ injection Hj as <-; discriminate Hp | discriminate Hj.. ].
  - reflexivity.
  - repeat constructor.
  - reflexivity.
Defined.

(** ** A reset while a change is waiting *)

Lemma alter_last {A} (f : A -> A) (l : list A) (x : A) :
  alter f (length l) (l ++ [x]) = l ++ [f x].
Proof.
  rewrite <- (Nat.add_0_r (length l)). rewrite alter_app_r. reflexivity.
Qed.

Lemma reset_cycle_spec (s : Sys) (outBytes : string) (err : option string) :
  mainq s = [] ->
  run s [ResetTapped; Exited (length (procs s)) outBytes err; MainLoop] =
    mkSys
      (mkUiState
         (set_value_result (tempK (u s)) 6500)
         (set_value_result (brightness (u s)) 1)
         (set_value_result (gamma (u s)) 1)
         (reset_msg err outBytes) (timer (u s)) (Some (length (procs s))) false)
      (now s) (timers s)
      (procs s ++ [mkProc ["redshift"; "-x"] ByReset (now s + timeout) Canceled false])
      [] (ready s).
Proof.
  intros Hq.
  assert (E : run s [ResetTapped; Exited (length (procs s)) outBytes err] =
              mkSys (with_cancel (Some (length (procs s))) (u s)) (now s) (timers s)
                (procs s ++ [mkProc ["redshift"; "-x"] ByReset (now s + timeout) Canceled false])
                [ResetDone (reset_msg err outBytes)] (ready s)).
  { unfold run. simpl. rewrite reset_begin_spec. unfold finish. simpl.
    rewrite lookup_new_proc. simpl. rewrite Hq.
    unfold with_procs, with_mainq. cbn [u now timers procs mainq].
    rewrite alter_last. reflexivity. }
  change (run s [ResetTapped; Exited (length (procs s)) outBytes err; MainLoop])
    with (step (run s [ResetTapped; Exited (length (procs s)) outBytes err]) MainLoop).
  rewrite E. unfold step. simpl mainq. unfold run_main. rewrite reset_done_spec.
  destruct_sys s. reflexivity.
Qed.

(** X9: [reset] leaves the debounce timer alone.  When the button is
    tapped while a change is still waiting for its delay, the reset runs
    to its end (the sliders show the defaults again), and afterwards the
    timer fires all the same: the [apply] command is started with the
    snapshot taken at the change, not with the defaults now shown. *)
Theorem reset_keeps_pending_apply (s : Sys) (w : Param) (v : float)
    (outBytes : string) (err : option string) (d : Z) :
  inv s -> ranges_ok (u s) -> mainq s = [] -> debounce <= d ->
  invocations
    (run s [Dragged w v; ResetTapped; Exited (length (procs s)) outBytes err; MainLoop;
            Elapse d])
  = invocations s ++
    [ (ByReset, ["redshift"; "-x"]);
      (ByApply, "redshift" :: apply_args (int_of_float64 (Value (tempK (moved w v (u s)))))
                                (Value (brightness (moved w v (u s))))
                                (Value (gamma (moved w v (u s))))) ]
  /\ at_defaults
       (u (run s [Dragged w v; ResetTapped; Exited (length (procs s)) outBytes err; MainLoop;
                  Elapse d])).
Proof.
  intros Hinv Hr Hq Hd. assert (0 < debounce) by reflexivity.
  destruct (Dragged_pending_last w v s Hinv) as (Hp & Hi & Hn & Hm & Hlen).
  pose proof (step_ranges_ok s (Dragged w v) Hr) as Hr1.
  change (run s [Dragged w v; ResetTapped; Exited (length (procs s)) outBytes err; MainLoop;
                 Elapse d])
    with (elapse d (run (step s (Dragged w v))
                      [ResetTapped; Exited (length (procs s)) outBytes err; MainLoop])).
  rewrite <- Hlen. rewrite reset_cycle_spec by (rewrite Hm; exact Hq).
  destruct (restored_values _ Hr1) as (Vt & Vb & Vg).
  set (s1 := step s (Dragged w v)) in *.
  rewrite (elapse_pending_last (now s + debounce) (snapshot (moved w v (u s))) d).
  2: { destruct Hp as (l & Ht & Hl & Hu). exists l. repeat split; assumption. }
  2: lia.
  simpl now. rewrite Hn.
  destruct (Z.leb_spec (now s + debounce) (now s + d)) as [ _ | ]; [ | lia ].
  rewrite fire_spec. simpl. split.
  - unfold invocations. simpl. rewrite map_map_same by apply expire_key.
    rewrite !map_app. simpl. fold (invocations s1). rewrite Hi, <- app_assoc. reflexivity.
  - repeat split; assumption.
Qed.

Lemma reset_keeps_pending_apply_witness :
  invocations
    (run (main_init None)
       [Dragged PTemp 3000; ResetTapped; Exited 0 "" None; MainLoop; Elapse debounce])
  = [ (ByReset, ["redshift"; "-x"]);
      (ByApply, ["redshift"; "-m"; "randr"; "-P"; "-O"; "3000";
                 "-g"; "1.00:1.00:1.00"; "-b"; "1.00"]) ]
  /\ Value (tempK (u (run (main_init None)
                        [Dragged PTemp 3000; ResetTapped; Exited 0 "" None; MainLoop;
                         Elapse debounce]))) = 6500%float.
Proof.
  destruct (reset_keeps_pending_apply (main_init None) PTemp 3000 "" None debounce)
    as (Hi & Hv & _).
  - split; [ reflexivity | intros j tm Hj; discriminate Hj ].
  - repeat split.
  - reflexivity.
  - discriminate.
  - split; [ exact Hi | exact Hv ].
Defined.

(** ** The command line and the labels *)

Lemma append_empty_r (x : string) : x +:+ "" = x.
Proof.
  induction x as [| c x IH]; [ reflexivity | ].
  change (String c (x +:+ "") = String c x). rewrite IH. reflexivity.
Qed.

(** X10: what you see is what is applied.  In every state the program
    can reach, the [-b] argument that [apply] would pass for the current
    sliders is the text of the brightness label, and the [-g] argument is
    the text of the gamma label, three times, separated by colons. *)
Theorem args_show_brightness_gamma_labels (s : Sys) :
  reachable s ->
  apply_args (int_of_float64 (Value (tempK (u s)))) (Value (brightness (u s)))
    (Value (gamma (u s)))
  = [ "-m"; "randr"; "-P"; "-O"; Sprintf_d (int_of_float64 (Value (tempK (u s))));
      "-g"; valueLabel (gamma (u s)) +:+ ":" +:+ valueLabel (gamma (u s)) +:+ ":"
            +:+ valueLabel (gamma (u s));
      "-b"; valueLabel (brightness (u s)) ].
Proof.
  intros H. destruct (reachable_widgets s H) as ((_ & Lb & Lg) & _ & _ & F3 & F4 & F5 & F6).
  unfold label_shows_value, formatValue in *. rewrite Lb, Lg, F3, F4, F5, F6. reflexivity.
Qed.

Lemma args_show_brightness_gamma_labels_witness :
  apply_args 6500 0.5 2
  = [ "-m"; "randr"; "-P"; "-O"; "6500";
      "-g"; valueLabel (gamma (u (run (main_init None) [Dragged PBright 0.5; Dragged PGamma 2])))
            +:+ ":" +:+
            valueLabel (gamma (u (run (main_init None) [Dragged PBright 0.5; Dragged PGamma 2])))
            +:+ ":" +:+
            valueLabel (gamma (u (run (main_init None) [Dragged PBright 0.5; Dragged PGamma 2])));
      "-b"; valueLabel (brightness (u (run (main_init None)
                                         [Dragged PBright 0.5; Dragged PGamma 2]))) ].
Proof.
  apply (args_show_brightness_gamma_labels
           (run (main_init None) [Dragged PBright 0.5; Dragged PGamma 2])).
  exists None, [Dragged PBright 0.5; Dragged PGamma 2]. reflexivity.
Defined.

Lemma whole_magnitude (m : positive) (e : Z) :
  whole m e ->
  (if 0 <=? e then Z.shiftl (Z.pos m) e else Z.shiftr (Z.pos m) (- e)) = Z.shiftl (Z.pos m) e
  /\ round_scaled 0 m e = Z.shiftl (Z.pos m) e
  /\ 0 < Z.shiftl (Z.pos m) e.
Proof.
  intros Hw. unfold round_scaled. change (10 ^ Z.of_nat 0) with 1. rewrite Z.mul_1_r.
  destruct (Z.leb_spec 0 e) as [He | He].
  - rewrite Z.shiftl_mul_pow2 by lia. repeat split.
    apply Z.mul_pos_pos; [ lia | apply Z.pow_pos_nonneg; lia ].
  - destruct Hw as [Hw | Hw]; [ lia | ].
    assert (Hd : 0 < 2 ^ (- e)) by (apply Z.pow_pos_nonneg; lia).
    assert (Hs : Z.shiftl (Z.pos m) e = Z.pos m / 2 ^ (- e)).
    { rewrite <- (Z.opp_involutive e) at 1.
      rewrite Z.shiftl_opp_r, Z.shiftr_div_pow2 by lia. reflexivity. }
    rewrite Hs, Z.shiftr_div_pow2, Hw by lia.
    destruct (Z.ltb_spec (2 * 0) (2 ^ (- e))) as [ _ | ]; [ | lia ].
    repeat split.
    apply Z.div_str_pos. split; [ exact Hd | ].
    apply Z.divide_pos_le; [ lia | ]. apply Z.mod_divide; [ lia | exact Hw ].
Qed.

(** X11: a whole temperature is applied as shown.  For a finite number
    without a fraction that fits an [int], the conversion [int(f)]
    printed with [%d] is the text that [%.0f] prints for [f]; so in every
    reachable state whose temperature is such a number, the temperature
    label is the [-O] argument followed by " K". *)
Theorem whole_temperature_arg_is_label (s : Sys) (neg : bool) (m : positive) (e : Z) :
  reachable s ->
  Prim2SF (Value (tempK (u s))) = S754_finite neg m e ->
  whole m e -> Z.shiftl (Z.pos m) e <= max_int64 ->
  Sprintf_d (int_of_float64 (Value (tempK (u s)))) = Sprintf_f 0 (Value (tempK (u s)))
  /\ valueLabel (tempK (u s)) =
       Sprintf_d (int_of_float64 (Value (tempK (u s)))) +:+ " K".
Proof.
  intros H Hf Hw Hmax.
  destruct (reachable_widgets s H) as ((Lt & _) & F1 & F2 & _).
  assert (E : Sprintf_d (int_of_float64 (Value (tempK (u s))))
              = Sprintf_f 0 (Value (tempK (u s)))).
  { unfold int_of_float64, Sprintf_f. rewrite Hf.
    destruct (whole_magnitude m e Hw) as (-> & -> & Hpos).
    set (a := Z.shiftl (Z.pos m) e) in *.
    assert (Hmin : min_int64 <= - a) by (unfold min_int64, max_int64 in *; lia).
    unfold fixed. change (10 ^ Z.of_nat 0) with 1. rewrite Z.div_1_r, append_empty_r.
    unfold Sprintf_d. destruct neg.
    - destruct (Z.leb_spec min_int64 (- a)) as [ _ | ]; [ | lia ].
      destruct (Z.leb_spec (- a) max_int64) as [ _ | ]; [ | unfold max_int64 in *; lia ].
      simpl andb. cbv iota.
      destruct (Z.ltb_spec (- a) 0) as [ _ | ]; [ | lia ].
      rewrite Z.opp_involutive. reflexivity.
    - destruct (Z.leb_spec min_int64 a) as [ _ | ]; [ | unfold min_int64 in *; lia ].
      destruct (Z.leb_spec a max_int64) as [ _ | ]; [ | lia ].
      simpl andb. cbv iota.
      destruct (Z.ltb_spec a 0) as [ | _ ]; [ lia | ]. reflexivity. }
  split; [ exact E | ].
  unfold label_shows_value, formatValue in Lt. rewrite Lt, F1, F2, E. reflexivity.
Qed.

Lemma whole_temperature_arg_is_label_witness :
  valueLabel (tempK (u (run (main_init None) [Dragged PTemp 4300]))) = "4300" +:+ " K".
Proof.
  refine (proj2 (whole_temperature_arg_is_label
                   (run (main_init None) [Dragged PTemp 4300])
                   false 4727899999436800 (-40) _ _ _ _)).
  - exists None, [Dragged PTemp 4300]. reflexivity.
  - reflexivity.
  - right. reflexivity.
  - discriminate.
Defined.

(** With a fraction the two differ: the label rounds, the conversion
    truncates. *)
Example fraction_label_and_arg :
  valueLabel (tempK (u (run (main_init None) [Dragged PTemp 6500.75]))) = "6501 K"
  /\ Sprintf_d (int_of_float64 6500.75) = "6500".
Proof. split; reflexivity. Qed.

(** ** Trimmed output *)

Lemma trim_with_stops (width : list N -> nat) (fuel : nat) (l : list N) :
  width [] = 0%nat -> (length l <= fuel)%nat -> width (trim_with width fuel l) = 0%nat.
Proof.
  intros H0. revert l. induction fuel as [| fuel IH]; intros l Hl; simpl.
  - destruct l; [ exact H0 | simpl in Hl; lia ].
  - destruct (width l) as [| w] eqn:E; [ exact E | ].
    apply IH. rewrite length_drop.
    destruct l; [ rewrite H0 in E; discriminate E | simpl in *; lia ].
Qed.

Lemma trim_with_suffix (width : list N -> nat) (fuel : nat) (l : list N) :
  exists k, trim_with width fuel l = drop k l.
Proof.
  revert l. induction fuel as [| fuel IH]; intros l; simpl.
  - exists 0%nat. reflexivity.
  - destruct (width l) as [| w]; [ exists 0%nat; reflexivity | ].
    destruct (IH (drop (S w) l)) as (k & Hk). exists (S w + k)%nat.
    rewrite Hk, drop_drop. reflexivity.
Qed.

Lemma trim_with_fixed (width : list N -> nat) (fuel : nat) (l : list N) :
  width l = 0%nat -> trim_with width fuel l = l.
Proof. intros H. destruct fuel; simpl; [ reflexivity | rewrite H; reflexivity ]. Qed.

Lemma space_width_prefix (r x : list N) (w : nat) :
  space_width r = S w -> space_width (r ++ x) = S w.
Proof.
  destruct r as [| c [| d [| e r]]]; simpl; intros H.
  - discriminate H.
  - destruct (ascii_space c); [ exact H | discriminate H ].
  - destruct (ascii_space c); [ exact H | ].
    destruct ((c =? 194)%N && ((d =? 133)%N || (d =? 160)%N)); [ exact H | discriminate H ].
  - exact H.
Qed.

Lemma bytes_of_bytes (l : list N) :
  Forall (fun n => (n < 256)%N) l -> bytes (of_bytes l) = l.
Proof.
  intros H. unfold bytes, of_bytes. rewrite list_ascii_of_string_of_list_ascii.
  induction H as [| n l Hn _ IH]; simpl; [ reflexivity | ].
  rewrite N_ascii_embedding by exact Hn. rewrite IH. reflexivity.
Qed.

Lemma bytes_bounded (s : string) : Forall (fun n => (n < 256)%N) (bytes s).
Proof.
  unfold bytes. induction (list_ascii_of_string s) as [| a l IH]; simpl; constructor.
  - apply N_ascii_bounded.
  - exact IH.
Qed.

Lemma trimmed_bytes (s : string) :
  exists x y, bytes s = x ++ bytes (TrimSpace s) ++ y
              /\ space_width (bytes (TrimSpace s)) = 0%nat
              /\ space_width_last (rev (bytes (TrimSpace s))) = 0%nat.
Proof.
  unfold TrimSpace, trimLeft, trimRight.
  destruct (trim_with_suffix space_width (length (bytes s)) (bytes s)) as (k & Hk).
  set (L := trim_with space_width (length (bytes s)) (bytes s)) in *.
  destruct (trim_with_suffix space_width_last (length L) (rev L)) as (j & Hj).
  set (R := rev (trim_with space_width_last (length L) (rev L))) in *.
  assert (HL : L = R ++ rev (take j (rev L))).
  { unfold R. rewrite Hj, <- rev_app_distr, take_drop, rev_involutive. reflexivity. }
  assert (Hb : bytes (of_bytes R) = R).
  { apply bytes_of_bytes. pose proof (bytes_bounded s) as Hs.
    rewrite <- (take_drop k (bytes s)), <- Hk, HL in Hs.
    apply Forall_app in Hs. destruct Hs as (_ & Hs).
    apply Forall_app in Hs. exact (proj1 Hs). }
  rewrite Hb. exists (take k (bytes s)), (rev (take j (rev L))).
  split; [ rewrite <- HL, Hk, take_drop; reflexivity | ]. split.
  - assert (H0 : space_width L = 0%nat) by (apply trim_with_stops; [ reflexivity | lia ]).
    destruct (space_width R) as [| w] eqn:E; [ reflexivity | ].
    rewrite HL, (space_width_prefix _ _ _ E) in H0. discriminate H0.
  - unfold R. rewrite rev_involutive. apply trim_with_stops; [ reflexivity | ].
    rewrite length_rev. lia.
Qed.

(** *** Stripping, from both ends *)

Lemma trim_with_runes (width : list N -> nat) (rs : list (list N)) :
  Forall (fun r => forall rest,
            exists w, width (r ++ rest) = S w /\ drop (S w) (r ++ rest) = rest) rs ->
  forall rest fuel, (length rs <= fuel)%nat ->
  trim_with width fuel (concat rs ++ rest) = trim_with width (fuel - length rs) rest.
Proof.
  induction 1 as [| r rs Hr _ IH]; intros rest fuel Hf.
  - simpl. rewrite Nat.sub_0_r. reflexivity.
  - destruct fuel as [| fuel]; [ simpl in Hf; lia | ].
    cbn [concat length Nat.sub]. rewrite <- app_assoc.
    destruct (Hr (concat rs ++ rest)) as (w & Hw & Hd).
    cbn [trim_with]. rewrite Hw, Hd. apply IH. simpl in Hf. lia.
Qed.

Lemma space_rune_width_last (r rest : list N) :
  In r space_runes ->
  exists w, space_width_last (rev r ++ rest) = S w /\ drop (S w) (rev r ++ rest) = rest.
Proof.
  intros H. simpl in H.
  repeat (destruct H as [<- | H]; [ eexists; split; reflexivity | ]).
  contradiction.
Qed.

Lemma rev_concat_runes (rs : list (list N)) :
  rev (concat rs) = concat (rev (map (@rev N) rs)).
Proof.
  induction rs as [| r rs IH]; [ reflexivity | ].
  cbn [concat map rev]. rewrite rev_app_distr, IH, concat_app. simpl.
  rewrite app_nil_r. reflexivity.
Qed.

Lemma runes_count (rs : list (list N)) :
  Forall (fun r => In r space_runes) rs -> (length rs <= length (concat rs))%nat.
Proof.
  induction 1 as [| r rs Hr _ IH]; [ simpl; lia | ].
  cbn [concat length]. rewrite length_app.
  assert (1 <= length r)%nat; [ | lia ].
  simpl in Hr. repeat (destruct Hr as [<- | Hr]; [ simpl; lia | ]). contradiction.
Qed.

(** No white-space rune starts with a byte that continues a multi-byte
    white-space rune. *)
Lemma space_rune_head (r : list N) :
  In r space_runes ->
  exists f tl, r = f :: tl
    /\ ((f =? 133) || (f =? 160))%N = false
    /\ (f =? 154)%N = false /\ (f =? 128)%N = false /\ (f =? 129)%N = false
    /\ e2_80_space f = false /\ (f =? 159)%N = false.
Proof.
  intros H. simpl in H.
  repeat (destruct H as [<- | H]; [ eexists _, _; repeat split; reflexivity | ]).
  contradiction.
Qed.

(** White space that follows a text does not make the text start with
    white space. *)
Lemma space_width_core (c : list N) (rs : list (list N)) :
  space_width c = 0%nat -> c <> [] -> Forall (fun r => In r space_runes) rs ->
  space_width (c ++ concat rs) = 0%nat.
Proof.
  intros Hc Hne Hrs.
  destruct Hrs as [| r rs Hr _]; [ simpl; rewrite app_nil_r; exact Hc | ].
  destruct (space_rune_head r Hr) as (f & tl & -> & F2 & F154 & F128 & F129 & FE & F159).
  cbn [concat]. set (y := concat rs).
  destruct c as [| a [| b [| e c']]]; [ contradiction | | | exact Hc ].
  - simpl in Hc |- *. destruct (ascii_space a); [ discriminate Hc | ].
    rewrite F2, andb_false_r.
    destruct (tl ++ y) as [| e ?]; [ reflexivity | ].
    rewrite F154, F128, F129. rewrite !andb_false_r. reflexivity.
  - simpl in Hc |- *. destruct (ascii_space a); [ discriminate Hc | ].
    destruct ((a =? 194)%N && ((b =? 133)%N || (b =? 160)%N)); [ discriminate Hc | ].
    rewrite F128, FE, F159. rewrite !andb_false_r. reflexivity.
Qed.

Lemma bytes_app (a b : string) : bytes (a +:+ b) = bytes a ++ bytes b.
Proof.
  unfold bytes. induction a as [| c a IH]; [ reflexivity | ].
  change (String c a +:+ b) with (String c (a +:+ b)). simpl. rewrite IH. reflexivity.
Qed.

Lemma of_bytes_bytes (s : string) : of_bytes (bytes s) = s.
Proof.
  unfold bytes, of_bytes. rewrite map_map.
  rewrite (map_ext _ (fun a => a)) by (intros a; apply ascii_N_embedding).
  rewrite map_id. apply string_of_list_ascii_of_string.
Qed.

(** [TrimSpace] takes the white space off at both ends and keeps what
    is in between, white space inside it included. *)
Lemma TrimSpace_strips (lead core trail : string) :
  only_space lead -> only_space trail ->
  space_width (bytes core) = 0%nat -> space_width_last (rev (bytes core)) = 0%nat ->
  TrimSpace (lead +:+ core +:+ trail) = core.
Proof.
  intros (xs & Hxs & Hx) (ys & Hys & Hy) Hl Hr.
  assert (Hcase : bytes core = [] \/ bytes core <> []).
  { destruct (bytes core); [ left; reflexivity | right; discriminate ]. }
  destruct Hcase as [He | Hne].
  { assert (Hc : core = "") by (rewrite <- (of_bytes_bytes core), He; reflexivity).
    subst core. apply TrimSpace_only_space. exists (xs ++ ys). split.
    - apply Forall_app. split; assumption.
    - rewrite !bytes_app, Hx, Hy, concat_app. reflexivity. }
  unfold TrimSpace, trimLeft, trimRight. rewrite !bytes_app, Hx, Hy.
  rewrite trim_with_runes.
  - rewrite (trim_with_fixed space_width) by (apply space_width_core; assumption).
    rewrite rev_app_distr, rev_concat_runes, trim_with_runes.
    + rewrite (trim_with_fixed space_width_last) by exact Hr. rewrite rev_involutive. apply of_bytes_bytes.
    + apply Forall_rev, Forall_map. apply Forall_lookup. intros i r Hi rest.
      apply space_rune_width_last. eapply Forall_lookup in Hys; [ exact Hys | exact Hi ].
    + rewrite length_rev, length_map, length_app.
      pose proof (runes_count ys Hys). lia.
  - apply Forall_lookup. intros i r Hi rest. apply space_rune_width.
    eapply Forall_lookup in Hxs; [ exact Hxs | exact Hi ].
  - rewrite length_app. pose proof (runes_count xs Hxs). lia.
Qed.

(** C10: in [apply] and in [reset] the combined output is stripped of
    the white space at its two ends before the message is chosen: an
    output of white space, a text that neither starts nor ends with
    white space, and white space again gives the message of that text
    alone.  So an output made of white space only gives the message of
    an empty output: "Applied." or "Reset to defaults." on success, the
    error's description after the "redshift error: " or "reset error: "
    prefix on failure. *)
Theorem whitespace_output_is_no_output (e : CtxErr) (err : option string)
    (lead core trail : string) :
  only_space lead -> only_space trail ->
  space_width (bytes core) = 0%nat -> space_width_last (rev (bytes core)) = 0%nat ->
  TrimSpace (lead +:+ core +:+ trail) = core
  /\ apply_msg e err (lead +:+ core +:+ trail) = apply_msg e err core
  /\ reset_msg err (lead +:+ core +:+ trail) = reset_msg err core
  /\ (core <> "" ->
      apply_msg NoErr None (lead +:+ core +:+ trail) = core
      /\ (forall d, apply_msg NoErr (Some d) (lead +:+ core +:+ trail)
                    = "redshift error: " +:+ core)
      /\ (forall d, reset_msg (Some d) (lead +:+ core +:+ trail) = "reset error: " +:+ core))
  /\ TrimSpace (lead +:+ trail) = ""
  /\ apply_msg NoErr None (lead +:+ trail) = "Applied."
  /\ reset_msg None (lead +:+ trail) = "Reset to defaults."
  /\ (forall d, apply_msg NoErr (Some d) (lead +:+ trail) = "redshift error: " +:+ d)
  /\ (forall d, reset_msg (Some d) (lead +:+ trail) = "reset error: " +:+ d).
Proof.
  intros Hlead Htrail Hl Hr.
  pose proof (TrimSpace_strips lead core trail Hlead Htrail Hl Hr) as Hs.
  assert (Hc : TrimSpace core = core).
  { pose proof (TrimSpace_strips "" core "" ) as H0.
    rewrite append_empty_r in H0. apply H0; try assumption;
      exists []; (split; [ constructor | reflexivity ]). }
  assert (Hw : TrimSpace (lead +:+ trail) = "").
  { pose proof (TrimSpace_strips lead "" trail Hlead Htrail eq_refl eq_refl) as H0.
    exact H0. }
  split; [ exact Hs | ].
  split; [ apply msg_of_trimmed_output; congruence | ].
  split; [ apply msg_of_trimmed_output; congruence | ].
  split.
  { intros Hne. unfold apply_msg, reset_msg. rewrite Hs, (eqb_empty_false _ Hne).
    repeat split. }
  unfold apply_msg, reset_msg. rewrite Hw. repeat split.
Qed.

Lemma only_space_blank_tab_nbsp : only_space blank_tab_nbsp.
Proof.
  exists [[32]; [9]; [194; 160]]%N. split; [ | reflexivity ].
  repeat (constructor; [ simpl; tauto | ]). constructor.
Defined.

Lemma only_space_blank : only_space " ".
Proof.
  exists [[32]]%N. split; [ | reflexivity ].
  repeat (constructor; [ simpl; tauto | ]). constructor.
Defined.

Lemma whitespace_output_is_no_output_witness :
  TrimSpace (blank_tab_nbsp +:+ "Using method `randr'." +:+ " ") = "Using method `randr'."
  /\ apply_msg NoErr (Some "exit status 1") (blank_tab_nbsp +:+ " ")
     = "redshift error: exit status 1".
Proof.
  destruct (whitespace_output_is_no_output NoErr (Some "exit status 1")
              blank_tab_nbsp "Using method `randr'." " "
              only_space_blank_tab_nbsp only_space_blank eq_refl eq_refl)
    as (H1 & _ & _ & _ & _ & _ & _ & H2 & _).
  split; [ exact H1 | exact (H2 "exit status 1") ].
Defined.

(** X12: the trimmed output has no white space left at either end, is
    a middle part of the output, and trimming it again changes nothing;
    so [apply] and [reset] choose the same message for an output and for
    its trimmed form. *)
Theorem TrimSpace_trims (s : string) :
  (exists x y, bytes s = x ++ bytes (TrimSpace s) ++ y)
  /\ space_width (bytes (TrimSpace s)) = 0%nat
  /\ space_width_last (rev (bytes (TrimSpace s))) = 0%nat
  /\ TrimSpace (TrimSpace s) = TrimSpace s
  /\ (forall e err, apply_msg e err (TrimSpace s) = apply_msg e err s
                    /\ reset_msg err (TrimSpace s) = reset_msg err s).
Proof.
  destruct (trimmed_bytes s) as (x & y & Hxy & Hl & Hr).
  assert (Hidem : TrimSpace (TrimSpace s) = TrimSpace s).
  { unfold TrimSpace at 1. unfold trimLeft, trimRight.
    rewrite (trim_with_fixed _ _ _ Hl), (trim_with_fixed _ _ _ Hr), rev_involutive.
    unfold bytes, of_bytes. rewrite map_map.
    rewrite (map_ext _ (fun a => a)) by (intros a; apply ascii_N_embedding).
    rewrite map_id. apply string_of_list_ascii_of_string. }
  split; [ exists x, y; exact Hxy | ].
  split; [ exact Hl | ]. split; [ exact Hr | ]. split; [ exact Hidem | ].
  intros e err. apply msg_of_trimmed_output. exact Hidem.
Qed.

(** ** Timers and commands in reachable states *)

(** X13: no timer leaks.  In every state the program can reach the
    flag is clear, at most one timer is pending, and a pending timer is
    the one [u.timer] refers to. *)
Theorem at_most_one_timer_pending (s : Sys) :
  reachable s ->
  silence (u s) = false
  /\ (forall i j ti tj,
        timers s !! i = Some ti -> pending ti = true ->
        timers s !! j = Some tj -> pending tj = true ->
        i = j /\ timer (u s) = Some i).
Proof.
  intros H. destruct (reachable_inv s H) as ((Hs & Hone) & _).
  split; [ exact Hs | ].
  intros i j ti tj Hi Pi Hj Pj.
  pose proof (Hone i ti Hi Pi) as H1. pose proof (Hone j tj Hj Pj) as H2.
  split; [ congruence | assumption ].
Qed.

Lemma at_most_one_timer_pending_witness :
  silence (u (run (main_init None)
                [Dragged PTemp 3000; Dragged PTemp 3100; ResetTapped;
                 Exited 0 "" None; MainLoop])) = false
  /\ timer (u (run (main_init None)
                 [Dragged PTemp 3000; Dragged PTemp 3100; ResetTapped;
                  Exited 0 "" None; MainLoop])) = Some 1%nat.
Proof.
  destruct (at_most_one_timer_pending
              (run (main_init None)
                 [Dragged PTemp 3000; Dragged PTemp 3100; ResetTapped;
                  Exited 0 "" None; MainLoop])) as (Hs & Ht).
  - eexists None, _. reflexivity.
  - split; [ exact Hs | ].
    apply (Ht 1%nat 1%nat (mkTimer debounce (3100, 1%float, 1%float) true)
              (mkTimer debounce (3100, 1%float, 1%float) true)); reflexivity.
Defined.

(** X14: a change supersedes.  In a run without the button in which
    every [apply] goroutine runs the moment its timer fires, right after
    any slider change no command is in flight: the one that was running
    has been cancelled through the slot. *)
Theorem change_leaves_nothing_in_flight (lookPath : option string) (evs : list Event)
    (w : Param) (v : float) :
  Forall (fun ev => is_prompt ev = true) evs ->
  List.filter in_flight (procs (run (main_init lookPath) (evs ++ [Dragged w v]))) = [].
Proof.
  intros Hevs. apply filter_none_at. intros i p Hi.
  assert (Hall : Forall (fun ev => is_prompt ev = true) (evs ++ [Dragged w v])).
  { apply Forall_app. split; [ exact Hevs | repeat constructor ]. }
  destruct (prompt_invariants lookPath _ Hall) as (_ & Hslot & _).
  destruct (in_flight p) eqn:E; [ | reflexivity ].
  specialize (Hslot i p Hi E). rewrite run_snoc in Hslot.
  destruct (prompt_invariants lookPath evs Hevs) as ((Hs & _) & _).
  rewrite (Dragged_live_spec w v _ Hs) in Hslot. discriminate Hslot.
Qed.

Lemma change_leaves_nothing_in_flight_witness :
  map in_flight
    (procs (run (main_init None) [Dragged PTemp 3000; Elapse debounce])) = [true]
  /\ List.filter in_flight
       (procs (run (main_init None)
                 ([Dragged PTemp 3000; Elapse debounce] ++ [Dragged PGamma 2]))) = [].
Proof.
  split; [ reflexivity | ].
  apply (change_leaves_nothing_in_flight None [Dragged PTemp 3000; Elapse debounce] PGamma 2).
  repeat constructor.
Defined.



(** ** The slot holds the newest command only *)







Lemma round_scaled_nearest_witness :
  2 * Z.abs (round_scaled 2 5764607523034235 (-59) * 2 ^ 59 - 5764607523034235 * 100) <= 2 ^ 59.
Proof.
  refine (proj2 (round_scaled_nearest 2 5764607523034235 (-59) _)). reflexivity.
Defined.
